(** * era5cli command line front end: [src/era5cli/cli.py]

    A shallow embedding of the validation helpers ([zpadlist], [zpad_days],
    [zpad_months], [format_hours], [format_split], [str_seq],
    [seq_to_list]) and of [main], together with the properties of the
    specification that concern them.

    Conventions of the embedding.
    - A token is a [string] of 8-bit characters, read as Latin-1 code points.
    - Python code runs in the monad [M]: it threads the text written so far
      and the calls made to the two collaborators ([Fetch], [Info]), and it
      either returns a value or raises an exception ([exn]).  [sys.exit()]
      raises [SystemExit], as in Python.
    - Text written by the source's own [print] calls is kept verbatim; text
      produced by the argument parsing library (usage, help, error lines) is
      kept as a structured value, not as text.
    - Memory limits and the interpreter's limit on the number of digits of
      an integer literal are not modelled. *)

From Stdlib Require Import ZArith String Ascii DecimalString Lia.
From stdpp Require Import base strings list gmap.

Local Open Scope Z_scope.

(** ** Python's string primitives *)

Module Py.

Definition code (c : ascii) : N := N_of_ascii c.

Definition is_digit (c : ascii) : bool :=
  ((48 <=? code c) && (code c <=? 57))%N.

Definition digit_val (c : ascii) : Z := Z.of_N (code c) - 48.

(** [str.isspace] on one code point below 256: TAB..CR, FS..US, space,
    NEL and the no-break space. *)
Definition isspace (c : ascii) : bool :=
  let n := code c in
  (((9 <=? n) && (n <=? 13)) || ((28 <=? n) && (n <=? 32))
   || (n =? 133) || (n =? 160))%N.

Fixpoint all_space (s : string) : bool :=
  match s with
  | EmptyString => true
  | String c r => isspace c && all_space r
  end.

Fixpoint lstrip (s : string) : string :=
  match s with
  | EmptyString => EmptyString
  | String c r => if isspace c then lstrip r else s
  end.

(** The digits of an integer literal once its first digit has been read:
    digits, single underscores between digits, then only whitespace. *)
Fixpoint digits (acc : Z) (s : string) : option Z :=
  match s with
  | EmptyString => Some acc
  | String c r =>
      if is_digit c then digits (10 * acc + digit_val c) r
      else if Ascii.eqb c "_" then
        match r with
        | String d r' =>
            if is_digit d then digits (10 * acc + digit_val d) r' else None
        | EmptyString => None
        end
      else if all_space s then Some acc
      else None
  end.

Definition magnitude (s : string) : option Z :=
  match s with
  | String c r => if is_digit c then digits (digit_val c) r else None
  | EmptyString => None
  end.

(** [int(s)] for a string [s], base 10; [None] stands for [ValueError]. *)
Definition int (s : string) : option Z :=
  match lstrip s with
  | String "+" r => magnitude r
  | String "-" r => Z.opp <$> magnitude r
  | r => magnitude r
  end.

(** [str(n)] for an integer [n]. *)
Definition str (n : Z) : string := NilZero.string_of_int (Z.to_int n).

Fixpoint zeros (n : nat) : string :=
  match n with
  | O => EmptyString
  | S k => String "0" (zeros k)
  end.

(** [s.zfill(width)]: a string of [width] characters or more is returned
    unchanged; otherwise zeros are put in front, after a leading sign. *)
Definition zfill (width : nat) (s : string) : string :=
  if (width <=? String.length s)%nat then s
  else
    let fill := (width - String.length s)%nat in
    match s with
    | String c r =>
        if Ascii.eqb c "+" || Ascii.eqb c "-"
        then String c (zeros fill +:+ r)
        else zeros fill +:+ s
    | EmptyString => zeros fill
    end.

Definition lower_char (c : ascii) : ascii :=
  let n := code c in
  if (((65 <=? n) && (n <=? 90))
      || ((192 <=? n) && (n <=? 222) && negb (n =? 215)))%N
  then ascii_of_N (n + 32) else c.

Fixpoint lower (s : string) : string :=
  match s with
  | EmptyString => EmptyString
  | String c r => String (lower_char c) (lower r)
  end.

(** [s.split(sep)] for a separator of one character. *)
Fixpoint split (sep : ascii) (s : string) : list string :=
  match s with
  | EmptyString => [EmptyString]
  | String c r =>
      if Ascii.eqb c sep then EmptyString :: split sep r
      else match split sep r with
           | h :: t => String c h :: t
           | [] => [String c EmptyString]
           end
  end.

(** [list(range(start, stop))]. *)
Definition range (start stop : Z) : list Z :=
  (fun i : nat => start + Z.of_nat i) <$> seq 0 (Z.to_nat (stop - start)).

(** Truth value of an optional string: [None] and [""] are false. *)
Definition truthy (o : option string) : bool :=
  match o with
  | Some (String _ _) => true
  | _ => false
  end.

End Py.

(** ** Values, exceptions and the execution monad *)

#[warning="-register-all"]
Inductive pyval :=
| VNone
| VBool (b : bool)
| VInt (n : Z)
| VStr (s : string)
| VList (l : list pyval).

(** What the argument parser reports. *)
Inductive arg_error :=
| InvalidValue (dest tok : string)
| InvalidChoice (dest : string) (v : pyval)
| ExpectedArgument (dest : string)
| MissingRequired (dests : list string)
| Unrecognized (toks : list string)
| Conflict (option_string : string).

Inductive exn :=
| ValueError
| TypeError
| NameError (name : string)
| AttributeError (attr : string)
| ArgumentError (e : arg_error)
| SystemExit (status : option Z).

Inductive out_item :=
| Print (line : string)
| ParserError (e : arg_error)
| ParserHelp
| Traceback (e : exn).

(** Calls received by the collaborators. *)
Inductive call :=
| InfoNew (infotype : pyval)
| InfoList (infotype : pyval)
| FetchNew (years months days hours variables outputformat outputprefix
            split threads : pyval)
| FetchFetch.

Record world := World { output : list out_item; calls : list call }.

Definition world0 : world := World [] [].

Inductive result (A : Type) :=
| Ret (a : A)
| Raise (e : exn).
Arguments Ret {A} a.
Arguments Raise {A} e.

(** Computations over a state [S] that return or raise. *)
Definition St (S A : Type) : Type := S -> result A * S.

Definition ret {S A} (a : A) : St S A := fun w => (Ret a, w).

Definition raise {S A} (e : exn) : St S A := fun w => (Raise e, w).

Definition bind {S A B} (m : St S A) (k : A -> St S B) : St S B :=
  fun w =>
    match m w with
    | (Ret a, w') => k a w'
    | (Raise e, w') => (Raise e, w')
    end.

Notation "x <- m ;; k" := (bind m (fun x => k))
  (at level 100, m at next level, right associativity).
Notation "m ;; k" := (bind m (fun _ => k))
  (at level 100, right associativity).

(** [try: body except E as err: handler err], [handles] telling which
    exceptions the clause names. *)
Definition try_except_as {S A} (body : St S A) (handles : exn -> bool)
    (handler : exn -> St S A) : St S A :=
  fun w =>
    match body w with
    | (Raise e, w') => if handles e then handler e w' else (Raise e, w')
    | r => r
    end.

Definition try_except {S A} (body : St S A) (handles : exn -> bool)
    (handler : St S A) : St S A :=
  try_except_as body handles (fun _ => handler).

Fixpoint mapM {S A B} (f : A -> St S B) (l : list A) : St S (list B) :=
  match l with
  | [] => ret []
  | x :: r => y <- f x ;; ys <- mapM f r ;; ret (y :: ys)
  end.

Fixpoint foldM {S A B} (f : B -> A -> St S B) (l : list A) (b : B)
    : St S B :=
  match l with
  | [] => ret b
  | x :: r => b' <- f b x ;; foldM f r b'
  end.

(** The process: its output and the calls it has made. *)
Definition M (A : Type) : Type := St world A.

Definition emit (o : out_item) : M unit :=
  fun w => (Ret tt, World (output w ++ [o]) (calls w)).

Definition print (line : string) : M unit := emit (Print line).

Definition sys_exit {A} (status : option Z) : M A := raise (SystemExit status).

Definition record (c : call) : M unit :=
  fun w => (Ret tt, World (output w) (calls w ++ [c])).

Definition is_TypeError (e : exn) : bool :=
  match e with TypeError => true | _ => false end.

Definition is_ValueError (e : exn) : bool :=
  match e with ValueError => true | _ => false end.

Definition is_AttributeError (e : exn) : bool :=
  match e with AttributeError _ => true | _ => false end.

Definition is_ArgumentError (e : exn) : bool :=
  match e with ArgumentError _ => true | _ => false end.

(** [int(s)] as a computation. *)
Definition int (s : string) : M Z :=
  match Py.int s with
  | Some n => ret n
  | None => raise ValueError
  end.

(** ** The validation helpers *)

(** ["Invalid {} argument: {}".format(type, intstr)] *)
Definition invalid_message (type intstr : string) : string :=
  "Invalid " +:+ type +:+ " argument: " +:+ intstr.

Definition zpadlist (intstr type : string) (minval maxval : Z) : M string :=
  try_except
    (a <- int intstr ;;
     ok <- (if minval <=? a
            then b <- int intstr ;; ret (b <=? maxval)
            else ret false) ;;
     if ok : bool then ret tt
     else print (invalid_message type intstr) ;; sys_exit None)
    is_TypeError
    (raise (A:=unit) (NameError "reanalysis") ;; sys_exit None) ;;
  ret (Py.zfill 2 intstr).

Definition zpad_days (intstr : string) : M string :=
  zpadlist intstr "days" 1 31.

Definition zpad_months (intstr : string) : M string :=
  zpadlist intstr "months" 1 12.

Definition format_hours (intstr : string) : M string :=
  try_except
    (a <- int intstr ;;
     ok <- (if 0 <=? a
            then b <- int intstr ;; ret (b <=? 23)
            else ret false) ;;
     if ok : bool then ret tt
     else print ("Invalid hours argument: " +:+ intstr) ;; sys_exit None)
    is_TypeError
    (print ("Invalid hours argument: " +:+ intstr) ;; sys_exit None) ;;
  ret (Py.zfill 2 intstr +:+ ":00").

Definition format_split (splitstr : option string) : M (option string) :=
  match splitstr with
  | Some s =>
      if Py.truthy splitstr then
        try_except
          (if negb (bool_decide (Py.lower s ∈ ["variable"; "year"]))
           then print ("Invalid split argument: " +:+ s) ;; sys_exit None
           else ret tt)
          is_TypeError
          (print ("Invalid split argument: " +:+ s) ;; sys_exit None) ;;
        ret (Some (Py.lower s))
      else ret None
  | None => ret None
  end.

Definition seq_to_list (sequence : string) : M (list Z) :=
  match Py.split "/" sequence with
  | [first; last] =>
      a <- int first ;;
      b <- int last ;;
      ret (Py.range a (b + 1))
  | _ => raise ValueError
  end.

Definition str_seq (intseq : string) : M (list Z) :=
  try_except
    (n <- int intseq ;; ret [n])
    is_ValueError
    (seq_to_list intseq).

(** Running a computation from the start of the process. *)
Definition run {A} (m : M A) : result A * world := m world0.

(** ** The argument parsing library, as far as [main] uses it

    The command line reaches the embedding already cut into words, each
    word told apart as the library does: [Arg s] is a plain argument, [Opt s]
    an option string (with abbreviations and [--opt=value] forms resolved).
    What the library then does with the words is modelled here: arity,
    conversion through [type], [choices], [required], defaults, the help
    option, sub-commands and the words left over. *)

Inductive token :=
| Arg (s : string)
| Opt (s : string).

Inductive nargs_t :=
| One          (* nargs=None *)
| OneOrMore.   (* nargs="+" *)

Inductive kind_t :=
| Store
| Help.

(** One declared argument.  [default = None] is the library's [SUPPRESS];
    Python's [None] is [Some VNone].  A positional argument has no option
    string and is required. *)
Record action := Action {
  kind : kind_t;
  option_strings : list string;
  dest : string;
  nargs : nargs_t;
  type : string -> M pyval;
  choices : option (list pyval);
  required : bool;
  default : option pyval
}.

(** Python's [==] on the values that occur. *)
Fixpoint pyval_eqb (a b : pyval) : bool :=
  match a, b with
  | VNone, VNone => true
  | VBool x, VBool y => Bool.eqb x y
  | VInt x, VInt y => x =? y
  | VBool x, VInt y => (if x then 1 else 0) =? y
  | VInt x, VBool y => x =? (if y then 1 else 0)
  | VStr x, VStr y => String.eqb x y
  | VList x, VList y =>
      (fix go (l1 l2 : list pyval) : bool :=
         match l1, l2 with
         | [], [] => true
         | h1 :: t1, h2 :: t2 => pyval_eqb h1 h2 && go t1 t2
         | _, _ => false
         end) x y
  | _, _ => false
  end.

(** [v in choices] *)
Definition py_in (v : pyval) (l : list pyval) : bool :=
  existsb (pyval_eqb v) l.

(** *** Building parsers

    Parsers are objects: [ArgumentParser] allocates one, [add_argument]
    changes it in place.  A parser created with [parents] receives the
    arguments its parents hold at that moment; arguments added to a parent
    later do not reach it. *)

Record heap := Heap {
  parsers : list (list action);
  name_parser_map : list (string * nat)
}.

Definition heap0 : heap := Heap [] [].

Definition _actions (p : nat) : St heap (list action) :=
  fun h =>
    match parsers h !! p with
    | Some acts => (Ret acts, h)
    | None => (Raise (AttributeError "_actions"), h)
    end.

Definition conflict (a : action) (existing : list action)
    : option string :=
  find (fun s => existsb (fun b => bool_decide (s ∈ option_strings b))
                   existing)
       (option_strings a).

Definition _add_action (p : nat) (a : action) : St heap unit :=
  acts <- _actions p ;;
  match conflict a acts with
  | Some s => raise (ArgumentError (Conflict s))
  | None =>
      fun h => (Ret tt, Heap (<[p := acts ++ [a]]> (parsers h))
                             (name_parser_map h))
  end.

Definition add_argument (p : nat) (a : action) : St heap unit :=
  _add_action p a.

Definition help_action : action :=
  Action Help ["-h"; "--help"] "help" One (fun s => ret (VStr s)) None
         false None.

Definition ArgumentParser (add_help : bool) (parents : list nat)
    : St heap nat :=
  p <- (fun h => (Ret (length (parsers h)),
                  Heap (parsers h ++ [[]]) (name_parser_map h))) ;;
  (if add_help then add_argument p help_action else ret tt) ;;
  foldM (fun _ parent =>
           inherited <- _actions parent ;;
           foldM (fun _ a => _add_action p a) inherited tt)
        parents tt ;;
  ret p.

(** [subparsers.add_parser(name, parents=...)] *)
Definition add_parser (name : string) (parents : list nat) : St heap nat :=
  p <- ArgumentParser true parents ;;
  (fun h => (Ret tt, Heap (parsers h) (name_parser_map h ++ [(name, p)]))) ;;
  ret p.

(** *** Parsing *)

Definition error {A} (e : arg_error) : M A :=
  emit (ParserError e) ;; sys_exit (Some 2).

Definition _get_value (a : action) (arg_string : string) : M pyval :=
  try_except (type a arg_string)
    (fun e => is_TypeError e || is_ValueError e)
    (raise (ArgumentError (InvalidValue (dest a) arg_string))).

Definition _check_value (a : action) (v : pyval) : M unit :=
  match choices a with
  | Some cs =>
      if py_in v cs then ret tt
      else raise (ArgumentError (InvalidChoice (dest a) v))
  | None => ret tt
  end.

Definition _get_values (a : action) (arg_strings : list string) : M pyval :=
  match nargs a, arg_strings with
  | One, [s] => v <- _get_value a s ;; _check_value a v ;; ret v
  | _, _ =>
      vs <- mapM (_get_value a) arg_strings ;;
      foldM (fun _ v => _check_value a v) vs tt ;;
      ret (VList vs)
  end.

(** The state of one parse: the namespace, the arguments seen (by
    [dest]), the positional arguments not yet matched, the words nobody
    took. *)
Record pstate := PState {
  ns : gmap string pyval;
  seen : list string;
  positionals : list action;
  extras : list string
}.

Definition take_action (a : action) (arg_strings : list string)
    (st : pstate) : M pstate :=
  match kind a with
  | Help => emit ParserHelp ;; sys_exit (Some 0)
  | Store =>
      v <- _get_values a arg_strings ;;
      ret (PState (<[dest a := v]> (ns st)) (dest a :: seen st)
                  (positionals st) (extras st))
  end.

(** How a run of plain arguments is shared among positional arguments:
    each takes one; the first that accepts several takes the spare ones. *)
Fixpoint allot (acts : list action) (spare : nat) (strs : list string)
    : list (action * list string) * list string :=
  match acts with
  | [] => ([], strs)
  | a :: rest =>
      let n := match nargs a with One => 1 | OneOrMore => S spare end%nat in
      let spare' := match nargs a with One => spare | OneOrMore => 0%nat end in
      let '(pairs, unused) := allot rest spare' (drop n strs) in
      ((a, take n strs) :: pairs, unused)
  end.

Definition consume_positionals (strs : list string) (st : pstate)
    : M pstate :=
  let k := Nat.min (length (positionals st)) (length strs) in
  let '(pairs, unused) :=
    allot (take k (positionals st)) (length strs - k) strs in
  st' <- foldM (fun s '(a, args) => take_action a args s) pairs
           (PState (ns st) (seen st) (drop k (positionals st)) (extras st)) ;;
  ret (PState (ns st') (seen st') (positionals st') (extras st' ++ unused)).

Definition consume_optional (acts : list action) (st : pstate)
    (g : string * list string) : M pstate :=
  let '(option_string, strs) := g in
  match find (fun a => bool_decide (option_string ∈ option_strings a))
             acts with
  | None =>
      consume_positionals strs
        (PState (ns st) (seen st) (positionals st)
                (extras st ++ [option_string]))
  | Some a =>
      match kind a, nargs a, strs with
      | Help, _, _ => take_action a [] st
      | Store, _, [] => raise (ArgumentError (ExpectedArgument (dest a)))
      | Store, One, s :: rest =>
          st' <- take_action a [s] st ;; consume_positionals rest st'
      | Store, OneOrMore, _ => take_action a strs st
      end
  end.

(** The plain arguments in front, then each option string with the plain
    arguments that follow it. *)
Fixpoint groups (toks : list token)
    : list string * list (string * list string) :=
  match toks with
  | [] => ([], [])
  | Arg s :: r => let '(strs, gs) := groups r in (s :: strs, gs)
  | Opt s :: r => let '(strs, gs) := groups r in ([], (s, strs) :: gs)
  end.

Definition is_positional (a : action) : bool :=
  match option_strings a with [] => true | _ => false end.

Definition init_defaults (acts : list action) : gmap string pyval :=
  foldl (fun m a =>
           match default a, m !! dest a with
           | Some v, None => <[dest a := v]> m
           | _, _ => m
           end) ∅ acts.

(** After the words: arguments not seen are reported when required;
    otherwise a default that is a string goes through [type]. *)
Definition finish (acts : list action) (st : pstate)
    : M (gmap string pyval * list string) :=
  r <- foldM (fun '(m, missing) a =>
                if bool_decide (dest a ∈ seen st) then ret (m, missing)
                else if required a then ret (m, missing ++ [dest a])
                else match default a with
                     | Some (VStr s) =>
                         v <- _get_value a s ;; ret (<[dest a := v]> m, missing)
                     | _ => ret (m, missing)
                     end)
         acts (ns st, []) ;;
  let '(m, missing) := r in
  match missing with
  | [] => ret (m, extras st)
  | _ => error (MissingRequired missing)
  end.

Definition _parse_known_args (acts : list action) (toks : list token)
    : M (gmap string pyval * list string) :=
  let '(strs, gs) := groups toks in
  st <- consume_positionals strs
          (PState (init_defaults acts) [] (filter is_positional acts) []) ;;
  st <- foldM (consume_optional acts) gs st ;;
  finish acts st.

Definition parse_known_args (acts : list action) (toks : list token)
    : M (gmap string pyval * list string) :=
  try_except_as (_parse_known_args acts toks) is_ArgumentError
    (fun err => match err with
                | ArgumentError e => error e
                | _ => raise err
                end).

Definition actions_of (h : heap) (p : nat) : list action :=
  match parsers h !! p with
  | Some acts => acts
  | None => []
  end.

(** The parser that holds the sub-commands ([dest='command'], required):
    its own options come first, the first plain argument names the
    sub-command, and every word after it goes to that sub-command's parser. *)
Fixpoint parse_command (h : heap) (p : nat) (toks : list token)
    (unknown : list string) : M (gmap string pyval * list string) :=
  match toks with
  | [] => error (MissingRequired ["command"])
  | Opt s :: rest =>
      match find (fun a => bool_decide (s ∈ option_strings a))
                 (actions_of h p) with
      | Some a => st <- take_action a [] (PState ∅ [] [] []) ;;
                  parse_command h p rest unknown
      | None => parse_command h p rest (unknown ++ [s])
      end
  | Arg name :: rest =>
      match list_find (fun e => e.1 = name) (name_parser_map h) with
      | None => error (InvalidChoice "command" (VStr name))
      | Some (_, (_, sub)) =>
          r <- parse_known_args (actions_of h sub) rest ;;
          let '(m, unused) := r in
          ret (m ∪ {["command" := VStr name]}, unknown ++ unused)
      end
  end.

Definition parse_args (h : heap) (p : nat) (toks : list token)
    : M (gmap string pyval) :=
  r <- parse_command h p toks [] ;;
  let '(m, argv) := r in
  match argv with
  | [] => ret m
  | _ => error (Unrecognized argv)
  end.

Definition getattr (args : gmap string pyval) (name : string) : M pyval :=
  match args !! name with
  | Some v => ret v
  | None => raise (AttributeError name)
  end.

(** ** [main] *)

(** The conversions named by [type=] in the declarations of [main]. *)
Definition type_str (s : string) : M pyval := ret (VStr s).

Definition type_bool (s : string) : M pyval :=
  ret (VBool (negb (String.eqb s ""))).

Definition type_int (s : string) : M pyval := n <- int s ;; ret (VInt n).

Definition type_str_seq (s : string) : M pyval :=
  l <- str_seq s ;; ret (VList (VInt <$> l)).

Definition type_zpad_months (s : string) : M pyval :=
  r <- zpad_months s ;; ret (VStr r).

Definition type_zpad_days (s : string) : M pyval :=
  r <- zpad_days s ;; ret (VStr r).

Definition type_format_hours (s : string) : M pyval :=
  r <- format_hours s ;; ret (VStr r).

Definition strs (l : list string) : pyval := VList (VStr <$> l).

Section Main.

(** The keys of [era5cli.inputref.refdict], which [main] takes as the
    choices of [info]'s argument. *)
Variable refdict : list string.

Definition arg_variables : action :=
  Action Store [] "variables" OneOrMore type_str None true (Some VNone).

Definition arg_years : action :=
  Action Store ["-y"; "--years"] "years" One type_str_seq None true
         (Some VNone).

Definition arg_product : action :=
  Action Store ["-p"; "--product"] "product" One type_str_seq
         (Some [VStr "ensemble_mean"; VStr "ensemble_members";
                VStr "ensemble_spread"; VStr "reanalysis"])
         true (Some VNone).

Definition arg_ensemble : action :=
  Action Store ["-e"; "--ensemble"] "ensemble" One type_bool None true
         (Some VNone).

Definition arg_synaptic : action :=
  Action Store ["-s"; "--synaptic"] "synaptic" One type_bool None true
         (Some VNone).

Definition arg_months : action :=
  Action Store ["-m"; "--months"] "months" OneOrMore type_zpad_months None
         false
         (Some (strs ((fun m => Py.zfill 2 (Py.str m)) <$> Py.range 1 13))).

Definition arg_days : action :=
  Action Store ["-d"; "--days"] "days" OneOrMore type_zpad_days None false
         (Some (strs ((fun d => Py.zfill 2 (Py.str d)) <$> Py.range 1 32))).

Definition arg_hours : action :=
  Action Store ["-t"; "--hours"] "hours" OneOrMore type_format_hours None
         false
         (Some (strs ((fun h => Py.zfill 2 (Py.str h) +:+ ":00")
                        <$> Py.range 0 24))).

Definition arg_levels : action :=
  Action Store ["-l"; "--levels"] "levels" OneOrMore type_int None false
         (Some VNone).

Definition arg_outputprefix : action :=
  Action Store ["-o"; "--outputprefix"] "outputprefix" One type_str None
         false (Some (VStr "era5")).

Definition arg_format : action :=
  Action Store ["-f"; "--format"] "format" One type_str
         (Some [VStr "netcdf"; VStr "grib"]) false (Some (VStr "netcdf")).

Definition arg_split : action :=
  Action Store ["-s"; "--split"] "split" One type_bool None false
         (Some (VBool true)).

Definition arg_threads : action :=
  Action Store ["--threads"] "threads" One type_int
         (Some (VInt <$> Py.range 1 7)) false (Some VNone).

Definition arg_type : action :=
  Action Store [] "type" One type_str (Some (VStr <$> refdict)) true
         (Some VNone).

(** The declarations of [main], in the order of the source: the three
    sub-command parsers are created (lines 89-102), [hourly] and [monthly]
    with [parents=[common]], and only then does [common] receive its
    arguments (lines 104-201). *)
Definition declarations : St heap nat :=
  parser <- ArgumentParser true [] ;;
  common <- ArgumentParser false [] ;;
  hourly <- add_parser "fetchhourly" [common] ;;
  monthly <- add_parser "fetchmonthly" [common] ;;
  info <- add_parser "info" [] ;;
  add_argument common arg_variables ;;
  add_argument common arg_years ;;
  add_argument hourly arg_product ;;
  add_argument monthly arg_ensemble ;;
  add_argument monthly arg_synaptic ;;
  add_argument common arg_months ;;
  add_argument common arg_days ;;
  add_argument common arg_hours ;;
  add_argument common arg_levels ;;
  add_argument common arg_outputprefix ;;
  add_argument common arg_format ;;
  add_argument common arg_split ;;
  add_argument common arg_threads ;;
  add_argument info arg_type ;;
  ret parser.

(** Lines 212-232.  [Info] and [Fetch] are collaborators outside this
    layer: creating one and calling its method are recorded, and return. *)
Definition dispatch (args : gmap string pyval) : M unit :=
  try_except
    (infotype <- getattr args "type" ;;
     record (InfoNew infotype) ;;
     record (InfoList infotype))
    is_AttributeError
    (variables <- getattr args "variables" ;;
     months <- getattr args "months" ;;
     days <- getattr args "days" ;;
     hours <- getattr args "hours" ;;
     split <- getattr args "split" ;;
     outputformat <- getattr args "format" ;;
     threads <- getattr args "threads" ;;
     levels <- getattr args "levels" ;;
     years <- getattr args "years" ;;
     outputprefix <- getattr args "outputprefix" ;;
     record (FetchNew years months days hours variables outputformat
                      outputprefix split threads) ;;
     record FetchFetch).

(** [args = parser.parse_args()], with the declarations before it. *)
Definition command_line (argv : list token) : M (gmap string pyval) :=
  match declarations heap0 with
  | (Ret parser, h) => parse_args h parser argv
  | (Raise e, _) => raise e
  end.

Definition main (argv : list token) : M unit :=
  args <- command_line argv ;;
  dispatch args.

End Main.

(** ** The process *)

Record process := Process {
  written : list out_item;
  dispatched : list call;
  status : Z
}.

(** How the interpreter ends a run: a normal return and [sys.exit()] give
    status 0, [sys.exit(n)] gives [n], any other exception is reported and
    gives status 1. *)
Definition python (m : M unit) : process :=
  match run m with
  | (Ret _, w) => Process (output w) (calls w) 0
  | (Raise (SystemExit None), w) => Process (output w) (calls w) 0
  | (Raise (SystemExit (Some n)), w) => Process (output w) (calls w) n
  | (Raise e, w) => Process (output w ++ [Traceback e]) (calls w) 1
  end.

Definition is_fetch (c : call) : bool :=
  match c with
  | FetchNew _ _ _ _ _ _ _ _ _ | FetchFetch => true
  | _ => false
  end.

Definition is_info_list (c : call) : bool :=
  match c with
  | InfoList _ => true
  | _ => false
  end.

(** ** Vocabulary of the specification *)

(** [s] left-padded with ['0'] to [width] characters. *)
Definition pad_left (width : nat) (s : string) : string :=
  Py.zeros (width - String.length s) +:+ s.


(** The Hour Token of hour [h]. *)
Definition hour_token (h : Z) : string := pad_left 2 (Py.str h) +:+ ":00".

(** [s] has the form "HH:00" with HH a zero-padded hour in 0-23. *)
Definition is_hour_token (s : string) : bool :=
  bool_decide (s ∈ hour_token <$> Py.range 0 24).

Fixpoint contains (c : ascii) (s : string) : bool :=
  match s with
  | EmptyString => false
  | String d r => Ascii.eqb d c || contains c r
  end.


Inductive verdict :=
| Accepted
| OutOfRange
| NotAnInteger.

(** What the bound check makes of a token. *)
Definition judge (tok : string) (lo hi : Z) : verdict :=
  match Py.int tok with
  | Some n => if (lo <=? n) && (n <=? hi) then Accepted else OutOfRange
  | None => NotAnInteger
  end.

(** The decimal rendering of a small number reads back as that number, has
    at most two characters, and is zero-filled as it is padded. *)
Definition canonical (n : Z) : bool :=
  bool_decide (Py.int (Py.str n) = Some n) &&
  bool_decide (Py.zfill 2 (Py.str n) = pad_left 2 (Py.str n)) &&
  bool_decide (String.length (pad_left 2 (Py.str n)) = 2%nat).

(** How a step of the argument parser can end, from the world [w]: it
    returns a value that satisfies [Q] and has written nothing; or, inside
    the parser only, it raises [ArgumentError]; or it has written the help
    text and leaves with status 0; or it has written an error report and
    leaves with status 2. *)
Inductive outcome_of {X : Type} (inner : bool) (Q : X → Prop) (w : world)
    : result X * world → Prop :=
| outcome_ret x : Q x → outcome_of inner Q w (Ret x, w)
| outcome_arg e :
    inner = true → outcome_of inner Q w (Raise (ArgumentError e), w)
| outcome_help :
    outcome_of inner Q w
      (Raise (SystemExit (Some 0)), World (output w ++ [ParserHelp]) (calls w))
| outcome_error e :
    outcome_of inner Q w
      (Raise (SystemExit (Some 2)),
       World (output w ++ [ParserError e]) (calls w)).

Definition triple {X : Type} (inner : bool) (m : M X) (Q : X → Prop)
    : Prop :=
  ∀ w, outcome_of inner Q w (m w).

(** A conversion that writes nothing and fails, if it does, with
    [ValueError] or [TypeError]. *)
Definition quiet {X : Type} (m : M X) : Prop :=
  ∀ w, (∃ x, m w = (Ret x, w)) ∨ m w = (Raise ValueError, w)
       ∨ m w = (Raise TypeError, w).

Definition quiet_action (a : action) : Prop := ∀ s, quiet (type a s).

(** The state of a parse over the arguments [acts] is sound. *)
Definition good (acts : list action) (st : pstate) : Prop :=
  (∀ a, a ∈ positionals st → a ∈ acts) ∧
  (∀ k, is_Some (ns st !! k) → k ∈ dest <$> acts).

(** Every attribute of the namespace [m] is the [dest] of an argument. *)
Definition keys_ok (acts : list action) (m : gmap string pyval) : Prop :=
  ∀ k, is_Some (m !! k) → k ∈ dest <$> acts.

(** The parsers that [main] has built when it reads the command line. *)
Definition built (refdict : list string) : heap :=
  Heap [[help_action];
        [arg_variables; arg_years; arg_months; arg_days; arg_hours;
         arg_levels; arg_outputprefix; arg_format; arg_split; arg_threads];
        [help_action; arg_product];
        [help_action; arg_ensemble; arg_synaptic];
        [help_action; arg_type refdict]]
       [("fetchhourly"%string, 2%nat); ("fetchmonthly"%string, 3%nat);
        ("info"%string, 4%nat)].

(** The command lines of the specification's examples. *)
Definition hourly_request : list token :=
  [Arg "fetchhourly"; Arg "2m_temperature"; Opt "--years"; Arg "2015/2016";
   Opt "--product"; Arg "reanalysis"].

Definition info_request : list token := [Arg "info"; Arg "pressure_levels"].

(** Unfolding of the monad's operations, for the helpers. *)
Ltac unfold_monad :=
  unfold run, zpad_days, zpad_months, zpadlist, format_hours,
    try_except, try_except_as, bind, int, ret, raise, print, emit, sys_exit.

(** The number of occurrences of [c] in [s]. *)
Fixpoint count_char (c : ascii) (s : string) : nat :=
  match s with
  | EmptyString => 0%nat
  | String d r => ((if Ascii.eqb d c then 1 else 0) + count_char c r)%nat
  end.

(** The names of the three sub-commands. *)
Definition commands : list string :=
  ["fetchhourly"; "fetchmonthly"; "info"]%string.

(** A helper called on its own, as a process. *)
Definition standalone {A} (m : M A) : process := python (m ;; ret tt).

(** * Properties *)

(** ** Strings *)

Lemma length_append (a b : string) :
  String.length (a +:+ b) = (String.length a + String.length b)%nat.
Proof. induction a as [|c a IH]; simpl; [reflexivity | now rewrite IH]. Qed.

Lemma length_zeros (n : nat) : String.length (Py.zeros n) = n.
Proof. induction n; simpl; congruence. Qed.

Lemma length_zfill (w : nat) (s : string) :
  String.length (Py.zfill w s) = Nat.max w (String.length s).
Proof.
  unfold Py.zfill.
  destruct (Nat.leb_spec w (String.length s)) as [Hle | Hlt]; [lia |].
  destruct s as [|c r].
  - rewrite length_zeros. simpl in *. lia.
  - destruct (_ || _); simpl in *;
      rewrite length_append, length_zeros; simpl; lia.
Qed.

Lemma digit_not_slash (c : ascii) :
  Ascii.eqb c "/" = true → Py.is_digit c = false.
Proof. intros H%Ascii.eqb_eq. now subst. Qed.

Lemma space_not_slash (c : ascii) :
  Ascii.eqb c "/" = true → Py.isspace c = false.
Proof. intros H%Ascii.eqb_eq. now subst. Qed.

Lemma all_space_no_slash (s : string) :
  Py.all_space s = true → contains "/" s = false.
Proof.
  induction s as [|c r IH]; simpl; [reflexivity |].
  intros [Hc Hr]%andb_true_iff.
  rewrite IH by assumption.
  destruct (Ascii.eqb c "/") eqn:E; [| reflexivity].
  rewrite (space_not_slash _ E) in Hc. discriminate.
Qed.

(** A literal accepted by [int] holds no slash. *)
Lemma digits_no_slash (n : nat) :
  ∀ s acc v, (String.length s < n)%nat →
    Py.digits acc s = Some v → contains "/" s = false.
Proof.
  induction n as [|n IH]; intros s acc v Hlen H; [lia |].
  destruct s as [|c r]; [reflexivity |].
  simpl in H, Hlen.
  destruct (Ascii.eqb c "/") eqn:Ec.
  - rewrite (digit_not_slash _ Ec) in H.
    apply Ascii.eqb_eq in Ec. subst c. simpl in H.
    destruct (Py.all_space r); discriminate.
  - simpl. rewrite Ec. simpl.
    destruct (Py.is_digit c).
    + eapply IH; [| exact H]. lia.
    + destruct (Ascii.eqb c "_").
      * destruct r as [|d r']; [discriminate |].
        destruct (Py.is_digit d) eqn:Ed; [| discriminate].
        simpl. destruct (Ascii.eqb d "/") eqn:E'.
        -- rewrite (digit_not_slash _ E') in Ed. discriminate.
        -- simpl. eapply IH; [| exact H]. simpl in Hlen. lia.
      * destruct (Py.isspace c && Py.all_space r) eqn:Es; [| discriminate].
        apply andb_true_iff in Es as [_ Hr].
        now apply all_space_no_slash.
Qed.

Lemma magnitude_no_slash (s : string) (v : Z) :
  Py.magnitude s = Some v → contains "/" s = false.
Proof.
  destruct s as [|c r]; simpl; [discriminate |].
  destruct (Py.is_digit c) eqn:Ed; [| discriminate].
  intros H. destruct (Ascii.eqb c "/") eqn:E.
  - rewrite (digit_not_slash _ E) in Ed. discriminate.
  - simpl. eapply (digits_no_slash (S (String.length r))); [| exact H]. lia.
Qed.

Lemma lstrip_no_slash (s : string) :
  contains "/" (Py.lstrip s) = false → contains "/" s = false.
Proof.
  induction s as [|c r IH]; simpl; [reflexivity |].
  destruct (Py.isspace c) eqn:Es; [| tauto].
  intros H. rewrite (IH H).
  destruct (Ascii.eqb c "/") eqn:E; [| reflexivity].
  rewrite (space_not_slash _ E) in Es. discriminate.
Qed.

Lemma int_no_slash (s : string) (v : Z) :
  Py.int s = Some v → contains "/" s = false.
Proof.
  unfold Py.int. intros H. apply lstrip_no_slash.
  destruct (Py.lstrip s) as [|c r] eqn:E; [discriminate |].
  assert (Hr : ∀ u, Py.magnitude r = Some u → contains "/" (String c r)
                    = Ascii.eqb c "/").
  { intros u Hu. simpl. rewrite (magnitude_no_slash _ _ Hu).
    now rewrite orb_false_r. }
  destruct (Ascii.eqb c "+") eqn:Ep.
  { apply Ascii.eqb_eq in Ep. subst c. now rewrite (Hr _ H). }
  destruct (Ascii.eqb c "-") eqn:Em.
  { apply Ascii.eqb_eq in Em. subst c.
    destruct (Py.magnitude r) as [u|] eqn:Hu; [| discriminate].
    now rewrite (Hr _ eq_refl). }
  assert (H' : Py.magnitude (String c r) = Some v).
  { destruct c as [[] [] [] [] [] [] [] []]; try exact H; discriminate. }
  now apply magnitude_no_slash in H'.
Qed.

Lemma int_slash (a b : string) : Py.int (a +:+ String "/" b) = None.
Proof.
  destruct (Py.int (a +:+ String "/" b)) as [v|] eqn:E; [| reflexivity].
  apply int_no_slash in E.
  exfalso. clear v. induction a as [|c a IH]; simpl in E; [discriminate |].
  apply orb_false_iff in E as [_ E]. auto.
Qed.

Lemma split_no_sep (c : ascii) (s : string) :
  contains c s = false → Py.split c s = [s].
Proof.
  induction s as [|d r IH]; simpl; [reflexivity |].
  intros [Hd Hr]%orb_false_iff. rewrite Hd, (IH Hr). reflexivity.
Qed.

Lemma split_app (c : ascii) (a b : string) :
  contains c a = false →
  Py.split c (a +:+ String c b) = a :: Py.split c b.
Proof.
  induction a as [|d r IH]; simpl.
  - intros _. now rewrite Ascii.eqb_refl.
  - intros [Hd Hr]%orb_false_iff. rewrite Hd, (IH Hr). reflexivity.
Qed.

(** ** Ranges *)

Lemma length_range (a b : Z) : length (Py.range a b) = Z.to_nat (b - a).
Proof. unfold Py.range. now rewrite length_fmap, length_seq. Qed.

Lemma lookup_range (a b : Z) (i : nat) :
  (i < Z.to_nat (b - a))%nat → Py.range a b !! i = Some (a + Z.of_nat i).
Proof.
  intros H. unfold Py.range.
  now rewrite list_lookup_fmap, lookup_seq_lt.
Qed.


Lemma range_nil (a b : Z) : Py.range a b = [] ↔ b <= a.
Proof.
  split; intros H.
  - apply (f_equal length) in H. rewrite length_range in H. simpl in H. lia.
  - apply length_zero_iff_nil. rewrite length_range. lia.
Qed.

(** ** The Sequence Expander *)

Lemma str_seq_single (tok : string) (n : Z) :
  Py.int tok = Some n → run (str_seq tok) = (Ret [n], world0).
Proof.
  intros H. unfold run, str_seq, try_except, try_except_as, bind, int.
  now rewrite H.
Qed.

Lemma str_seq_range (first last : string) (a b : Z) :
  Py.int first = Some a → Py.int last = Some b →
  run (str_seq (first +:+ "/" +:+ last))
  = (Ret (Py.range a (b + 1)), world0).
Proof.
  intros Ha Hb.
  unfold run, str_seq, try_except, try_except_as, bind, int.
  change (first +:+ "/" +:+ last) with (first +:+ String "/" last).
  rewrite int_slash. simpl.
  unfold seq_to_list.
  rewrite (split_app _ _ _ (int_no_slash _ _ Ha)).
  rewrite (split_no_sep _ _ (int_no_slash _ _ Hb)).
  unfold bind, int. now rewrite Ha, Hb.
Qed.



(** C9 as stated fails: the range token "5/3" is expanded, to the empty
    list. *)
Lemma str_seq_nonempty_counterexample :
  run (str_seq "5/3") = (Ret [], world0) ∧
  ¬ (∀ tok l, fst (run (str_seq tok)) = Ret l → l ≠ []).
Proof.
  split; [reflexivity |].
  intros H. now apply (H "5/3" []).
Qed.

(** C9, amended.  The expansion of a single integer is non-empty, and the
    expansion of a range token "first/last" is non-empty exactly when
    first <= last; with first > last the expansion succeeds and is empty. *)
Theorem str_seq_nonempty :
  (∀ tok n l, Py.int tok = Some n →
      fst (run (str_seq tok)) = Ret l → l ≠ []) ∧
  (∀ first last a b l,
      Py.int first = Some a → Py.int last = Some b →
      fst (run (str_seq (first +:+ "/" +:+ last))) = Ret l →
      (l ≠ [] ↔ a <= b)).
Proof.
  split.
  - intros tok n l H. rewrite (str_seq_single _ _ H). simpl.
    intros [= <-]. discriminate.
  - intros first last a b l Ha Hb. rewrite (str_seq_range _ _ _ _ Ha Hb).
    simpl. intros [= <-]. rewrite range_nil. lia.
Qed.

Lemma str_seq_nonempty_witness :
  ([2015] : list Z) ≠ [] ∧ (([4; 5] : list Z) ≠ [] ↔ 4 <= 5).
Proof.
  split.
  - apply (proj1 str_seq_nonempty "2015" 2015); reflexivity.
  - apply (proj2 str_seq_nonempty "4" "5" 4 5); reflexivity.
Defined.

(** ** The Bounded Field Normalizer *)

Lemma zpadlist_run (tok ty : string) (lo hi : Z) :
  run (zpadlist tok ty lo hi) =
  match judge tok lo hi with
  | Accepted => (Ret (Py.zfill 2 tok), world0)
  | OutOfRange => (Raise (SystemExit None),
                   World [Print (invalid_message ty tok)] [])
  | NotAnInteger => (Raise ValueError, world0)
  end.
Proof.
  unfold judge. unfold_monad.
  destruct (Py.int tok) as [n|]; [| reflexivity].
  destruct (lo <=? n); simpl; [| reflexivity].
  destruct (n <=? hi); reflexivity.
Qed.

Lemma format_hours_run (tok : string) :
  run (format_hours tok) =
  match judge tok 0 23 with
  | Accepted => (Ret (Py.zfill 2 tok +:+ ":00"), world0)
  | OutOfRange => (Raise (SystemExit None),
                   World [Print ("Invalid hours argument: " +:+ tok)] [])
  | NotAnInteger => (Raise ValueError, world0)
  end.
Proof.
  unfold judge. unfold_monad.
  destruct (Py.int tok) as [n|]; [| reflexivity].
  destruct (0 <=? n); simpl; [| reflexivity].
  destruct (n <=? 23); reflexivity.
Qed.

Lemma judge_accepted (tok : string) (lo hi : Z) :
  judge tok lo hi = Accepted ↔ ∃ n, Py.int tok = Some n ∧ lo <= n <= hi.
Proof.
  unfold judge. destruct (Py.int tok) as [n|].
  - destruct (Z.leb_spec lo n), (Z.leb_spec n hi); simpl; split;
      try discriminate;
      try (intros _; exists n; split; [reflexivity | lia]);
      try (intros (m & [= <-] & Hm); first [reflexivity | lia]).
  - split; [discriminate | intros (m & [=] & _)].
Qed.

Lemma judge_out_of_range (tok : string) (lo hi n : Z) :
  Py.int tok = Some n → ¬ (lo <= n <= hi) → judge tok lo hi = OutOfRange.
Proof.
  intros H Hn. unfold judge. rewrite H.
  destruct (Z.leb_spec lo n), (Z.leb_spec n hi); simpl; first [reflexivity | lia].
Qed.

Lemma elem_of_range (a b n : Z) : a <= n < b → n ∈ Py.range a b.
Proof.
  intros H. apply list_elem_of_lookup. exists (Z.to_nat (n - a)).
  rewrite lookup_range by lia. f_equal. lia.
Qed.

Lemma canonical_small (n : Z) : 0 <= n <= 31 → canonical n = true.
Proof.
  intros H.
  assert (Hall : forallb canonical (Py.range 0 32) = true)
    by (vm_compute; reflexivity).
  rewrite forallb_forall in Hall. apply Hall.
  apply list_elem_of_In, elem_of_range. lia.
Qed.

Lemma canonical_spec (n : Z) :
  canonical n = true →
  Py.int (Py.str n) = Some n ∧
  Py.zfill 2 (Py.str n) = pad_left 2 (Py.str n) ∧
  String.length (pad_left 2 (Py.str n)) = 2%nat.
Proof.
  unfold canonical.
  intros [[H1 H2]%andb_true_iff H3]%andb_true_iff.
  apply bool_decide_eq_true in H1, H2, H3. auto.
Qed.

Lemma zpadlist_canonical (ty : string) (lo hi n : Z) :
  0 <= lo → hi <= 31 → lo <= n <= hi →
  run (zpadlist (Py.str n) ty lo hi) = (Ret (pad_left 2 (Py.str n)), world0) ∧
  String.length (pad_left 2 (Py.str n)) = 2%nat.
Proof.
  intros Hlo Hhi Hn.
  destruct (canonical_spec n) as (Hi & Hz & Hl); [apply canonical_small; lia |].
  split; [| exact Hl].
  rewrite zpadlist_run.
  assert (Hj : judge (Py.str n) lo hi = Accepted)
    by (apply judge_accepted; eauto).
  rewrite Hj. now rewrite Hz.
Qed.

Lemma zpadlist_returns (tok ty r : string) (lo hi : Z) :
  fst (run (zpadlist tok ty lo hi)) = Ret r →
  (∃ n, Py.int tok = Some n ∧ lo <= n <= hi) ∧ r = Py.zfill 2 tok.
Proof.
  rewrite zpadlist_run.
  destruct (judge tok lo hi) eqn:E; simpl; try discriminate.
  intros [= <-]. split; [now apply judge_accepted | reflexivity].
Qed.

(** C4, on the code.  An out-of-range token is reported with the field
    name and the token, and the process is left through [sys.exit()]; a
    token that is no integer raises [ValueError] out of the helper, and
    nothing is printed. *)
Theorem nonnumeric_token_not_reported :
  run (zpad_days "32")
  = (Raise (SystemExit None), World [Print "Invalid days argument: 32"] []) ∧
  run (zpad_days "abc") = (Raise ValueError, world0) ∧
  run (zpad_months "13")
  = (Raise (SystemExit None), World [Print "Invalid months argument: 13"] []) ∧
  run (zpad_months "abc") = (Raise ValueError, world0) ∧
  run (format_hours "24")
  = (Raise (SystemExit None), World [Print "Invalid hours argument: 24"] []) ∧
  run (format_hours "abc") = (Raise ValueError, world0).
Proof. repeat split; reflexivity. Qed.

(** The two failures in general. *)
Lemma zpadlist_out_of_range (tok ty : string) (lo hi n : Z) :
  Py.int tok = Some n → ¬ (lo <= n <= hi) →
  run (zpadlist tok ty lo hi)
  = (Raise (SystemExit None), World [Print (invalid_message ty tok)] []).
Proof.
  intros H Hn. now rewrite zpadlist_run, (judge_out_of_range _ _ _ _ H Hn).
Qed.

Lemma zpadlist_not_an_integer (tok ty : string) (lo hi : Z) :
  Py.int tok = None →
  run (zpadlist tok ty lo hi) = (Raise ValueError, world0).
Proof. intros H. rewrite zpadlist_run. unfold judge. now rewrite H. Qed.

Lemma format_hours_out_of_range (tok : string) (n : Z) :
  Py.int tok = Some n → ¬ (0 <= n <= 23) →
  run (format_hours tok)
  = (Raise (SystemExit None),
     World [Print ("Invalid hours argument: " +:+ tok)] []).
Proof.
  intros H Hn. now rewrite format_hours_run, (judge_out_of_range _ _ _ _ H Hn).
Qed.

Lemma format_hours_not_an_integer (tok : string) :
  Py.int tok = None → run (format_hours tok) = (Raise ValueError, world0).
Proof. intros H. rewrite format_hours_run. unfold judge. now rewrite H. Qed.

(** C5 as stated fails: "005" is accepted as a day and returned with three
    characters. *)
Lemma zpad_width_counterexample :
  Py.int "005" = Some 5 ∧
  run (zpad_days "005") = (Ret "005", world0) ∧
  ¬ (∀ tok r, fst (run (zpad_days tok)) = Ret r → String.length r = 2%nat).
Proof.
  split; [reflexivity |]. split; [reflexivity |].
  intros H. specialize (H "005" "005" eq_refl). discriminate.
Qed.

(** C5, amended.  An accepted day or month token comes back zero-filled:
    its width is the larger of 2 and the token's own width.  For every n in
    [1,31] the day normalizer returns, on the decimal rendering of n, that
    rendering left-padded with '0' to exactly 2 characters; likewise the
    month normalizer for n in [1,12]. *)
Theorem zpad_width :
  (∀ tok r, fst (run (zpad_days tok)) = Ret r →
      r = Py.zfill 2 tok ∧
      String.length r = Nat.max 2 (String.length tok)) ∧
  (∀ tok r, fst (run (zpad_months tok)) = Ret r →
      r = Py.zfill 2 tok ∧
      String.length r = Nat.max 2 (String.length tok)) ∧
  (∀ n, 1 <= n <= 31 →
      run (zpad_days (Py.str n)) = (Ret (pad_left 2 (Py.str n)), world0) ∧
      String.length (pad_left 2 (Py.str n)) = 2%nat) ∧
  (∀ n, 1 <= n <= 12 →
      run (zpad_months (Py.str n)) = (Ret (pad_left 2 (Py.str n)), world0) ∧
      String.length (pad_left 2 (Py.str n)) = 2%nat).
Proof.
  repeat split.
  - now apply zpadlist_returns in H as [_ ->].
  - apply zpadlist_returns in H as [_ ->]. apply length_zfill.
  - now apply zpadlist_returns in H as [_ ->].
  - apply zpadlist_returns in H as [_ ->]. apply length_zfill.
  - apply zpadlist_canonical; lia.
  - apply (zpadlist_canonical "days" 1 31); lia.
  - apply zpadlist_canonical; lia.
  - apply (zpadlist_canonical "months" 1 12); lia.
Qed.

Lemma zpad_width_witness :
  ("09"%string = Py.zfill 2 "9" ∧
   String.length "09" = Nat.max 2 (String.length "9")) ∧
  (run (zpad_days (Py.str 9)) = (Ret (pad_left 2 (Py.str 9)), world0) ∧
   String.length (pad_left 2 (Py.str 9)) = 2%nat).
Proof.
  split.
  - apply (proj1 zpad_width "9" "09"). reflexivity.
  - apply (proj1 (proj2 (proj2 zpad_width)) 9). lia.
Defined.




(** ** The Enumerated Field Validator *)

Lemma format_split_run (s : string) :
  run (format_split (Some s)) =
  match s with
  | EmptyString => (Ret None, world0)
  | _ =>
      if bool_decide (Py.lower s ∈ ["variable"; "year"]%string)
      then (Ret (Some (Py.lower s)), world0)
      else (Raise (SystemExit None),
            World [Print ("Invalid split argument: " +:+ s)] [])
  end.
Proof.
  destruct s as [|c r]; [reflexivity |].
  unfold run, format_split, try_except, try_except_as, bind. simpl.
  destruct (bool_decide _); reflexivity.
Qed.

(** C10.  The empty split token is treated as an absent one: the
    validator returns [None], prints nothing and does not terminate. *)
Theorem format_split_empty :
  run (format_split (Some "")) = (Ret None, world0).
Proof. reflexivity. Qed.

(** C7 as stated fails: the empty token is present and no member of the
    vocabulary, and the validator returns [None] on it. *)
Lemma format_split_counterexample :
  (Py.lower "" ∉ ["variable"; "year"]%string) ∧
  run (format_split (Some "")) = (Ret None, world0) ∧
  ¬ (∀ s, Py.lower s ∉ ["variable"; "year"]%string →
          fst (run (format_split (Some s))) = Raise (SystemExit None)).
Proof.
  assert (H0 : Py.lower "" ∉ ["variable"; "year"]%string).
  { simpl. intros H. repeat (apply elem_of_cons in H as [H | H];
                             [discriminate |]).
    now apply elem_of_nil in H. }
  split; [exact H0 |]. split; [reflexivity |].
  intros H. specialize (H ""%string H0). discriminate.
Qed.

(** C7, amended.  The split validator returns [None] for an absent token,
    the lower-cased token for a case-insensitive member of
    {variable, year}, and for a present, non-empty token that is no member
    it prints a message naming the token and terminates; "Year" gives
    "year" and "weekly" is fatal. *)
Theorem format_split_validates :
  run (format_split None) = (Ret None, world0) ∧
  (∀ s, Py.lower s ∈ ["variable"; "year"]%string →
      run (format_split (Some s)) = (Ret (Some (Py.lower s)), world0)) ∧
  (∀ s, s ≠ ""%string → Py.lower s ∉ ["variable"; "year"]%string →
      run (format_split (Some s))
      = (Raise (SystemExit None),
         World [Print ("Invalid split argument: " +:+ s)] [])) ∧
  run (format_split (Some "Year")) = (Ret (Some "year"%string), world0) ∧
  run (format_split (Some "weekly"))
  = (Raise (SystemExit None),
     World [Print "Invalid split argument: weekly"] []).
Proof.
  split; [reflexivity |].
  split; [| split; [| split; reflexivity]].
  - intros s H. rewrite format_split_run.
    destruct s as [|c r].
    + exfalso. simpl in H.
      repeat (apply elem_of_cons in H as [H | H]; [discriminate |]).
      now apply elem_of_nil in H.
    + now rewrite bool_decide_eq_true_2.
  - intros s Hs H. rewrite format_split_run.
    destruct s as [|c r]; [congruence |].
    now rewrite bool_decide_eq_false_2.
Qed.

Lemma format_split_validates_witness :
  run (format_split (Some "VARIABLE"))
  = (Ret (Some (Py.lower "VARIABLE")), world0) ∧
  run (format_split (Some "month"))
  = (Raise (SystemExit None),
     World [Print ("Invalid split argument: " +:+ "month")] []).
Proof.
  split.
  - apply (proj1 (proj2 format_split_validates) "VARIABLE"%string).
    apply (bool_decide_eq_true_1 _). reflexivity.
  - apply (proj1 (proj2 (proj2 format_split_validates)) "month"%string).
    + discriminate.
    + apply (bool_decide_eq_false_1 _). reflexivity.
Defined.

(** ** The argument parser *)

Lemma declarations_built (refdict : list string) :
  declarations refdict heap0 = (Ret 0%nat, built refdict).
Proof. reflexivity. Qed.

Lemma triple_ret {X} inner (x : X) (Q : X → Prop) :
  Q x → triple inner (ret x) Q.
Proof. intros H w. now constructor. Qed.

Lemma triple_bind {X Y} inner (m : M X) (k : X → M Y)
    (Q : X → Prop) (R : Y → Prop) :
  triple inner m Q → (∀ x, Q x → triple inner (k x) R) →
  triple inner (bind m k) R.
Proof.
  intros Hm Hk w. unfold bind. specialize (Hm w).
  inversion Hm as [x Hx Heq | e He Heq | Heq | e Heq]; subst.
  - now apply Hk.
  - now constructor.
  - constructor.
  - constructor.
Qed.

Lemma triple_weaken {X} inner (m : M X) (Q R : X → Prop) :
  triple inner m Q → (∀ x, Q x → R x) → triple inner m R.
Proof.
  intros Hm HQ w. specialize (Hm w).
  inversion Hm; subst; try now constructor.
  constructor. auto.
Qed.

Lemma triple_foldM {X Y} inner (f : Y → X → M Y) (I : Y → Prop)
    (l : list X) :
  (∀ b a, I b → a ∈ l → triple inner (f b a) I) →
  ∀ b, I b → triple inner (foldM f l b) I.
Proof.
  induction l as [|x l IH]; intros Hf b Hb; simpl.
  - now apply triple_ret.
  - eapply triple_bind.
    + apply Hf; [exact Hb | left].
    + intros b' Hb'. apply IH; [| exact Hb'].
      intros b0 a H0 Ha. apply Hf; [exact H0 | now right].
Qed.

Lemma triple_mapM {X Y} inner (f : X → M Y) (l : list X) :
  (∀ a, a ∈ l → triple inner (f a) (λ _, True)) →
  triple inner (mapM f l) (λ _, True).
Proof.
  induction l as [|x l IH]; intros Hf; simpl.
  - now apply triple_ret.
  - eapply triple_bind; [apply Hf; left |].
    intros y _. eapply triple_bind.
    + apply IH. intros a Ha. apply Hf. now right.
    + intros ys _. now apply triple_ret.
Qed.

Lemma triple_error {X} inner (e : arg_error) (Q : X → Prop) :
  triple inner (error e) Q.
Proof. intros w. constructor. Qed.

Lemma triple_raise {X} (e : arg_error) (Q : X → Prop) :
  triple true (raise (ArgumentError e)) Q.
Proof. intros w. now constructor. Qed.

Lemma quiet_int (s : string) : quiet (int s).
Proof. intros w. unfold int. destruct (Py.int s); [left; eauto | right; now left]. Qed.

Lemma quiet_str_seq (s : string) : quiet (str_seq s).
Proof.
  intros w. unfold str_seq, try_except, try_except_as, bind, int.
  destruct (Py.int s) as [n|]; simpl; [left; eauto |].
  unfold seq_to_list.
  destruct (Py.split "/" s) as [|a [|b [|c l]]]; try (right; now left).
  unfold bind, int.
  destruct (Py.int a); simpl; [| right; now left].
  destruct (Py.int b); simpl; [left; eauto | right; now left].
Qed.

Lemma quiet_type_str_seq : ∀ s, quiet (type_str_seq s).
Proof.
  intros s w. unfold type_str_seq, bind.
  destruct (quiet_str_seq s w) as [[x ->] | [-> | ->]];
    [left; eauto | right; now left | right; now right].
Qed.

Lemma quiet_type_str : ∀ s, quiet (type_str s).
Proof. intros s w. left. eauto. Qed.

Lemma quiet_type_bool : ∀ s, quiet (type_bool s).
Proof. intros s w. left. eauto. Qed.

Section Engine.

Variable acts : list action.
Hypothesis acts_quiet : ∀ a, a ∈ acts → quiet_action a.

Lemma triple_get_value (a : action) (s : string) :
  a ∈ acts → triple true (_get_value a s) (λ _, True).
Proof.
  intros Ha w. unfold _get_value, try_except, try_except_as.
  destruct (acts_quiet a Ha s w) as [[x ->] | [-> | ->]]; simpl.
  - now constructor.
  - now constructor.
  - now constructor.
Qed.

Lemma triple_check_value (a : action) (v : pyval) :
  triple true (_check_value a v) (λ _, True).
Proof.
  unfold _check_value. destruct (choices a) as [cs|].
  - destruct (py_in v cs); [now apply triple_ret | apply triple_raise].
  - now apply triple_ret.
Qed.

Lemma triple_get_values (a : action) (l : list string) :
  a ∈ acts → triple true (_get_values a l) (λ _, True).
Proof.
  intros Ha.
  assert (Hmany : triple true
            (vs <- mapM (_get_value a) l ;;
             foldM (fun _ v => _check_value a v) vs tt ;;
             ret (VList vs)) (λ _, True)).
  { eapply triple_bind.
    - apply triple_mapM. intros s _. now apply triple_get_value.
    - intros vs _. eapply triple_bind.
      + apply (triple_foldM true _ (λ _, True)); [| exact I].
        intros [] v _ _. eapply triple_weaken; [apply triple_check_value |].
        auto.
      + intros _ _. now apply triple_ret. }
  unfold _get_values.
  destruct (nargs a); [| exact Hmany].
  destruct l as [|s [|s' l']]; try exact Hmany.
  eapply triple_bind; [now apply triple_get_value |].
  intros v _. eapply triple_bind; [apply triple_check_value |].
  intros _ _. now apply triple_ret.
Qed.

Lemma good_insert (a : action) (v : pyval) (st : pstate) :
  a ∈ acts → good acts st →
  good acts (PState (<[dest a := v]> (ns st)) (dest a :: seen st)
                    (positionals st) (extras st)).
Proof.
  intros Ha [Hp Hk]. split; [exact Hp |]. simpl.
  intros k Hs. destruct (decide (k = dest a)) as [-> | Hne].
  - apply list_elem_of_fmap. eauto.
  - rewrite lookup_insert_ne in Hs by congruence. auto.
Qed.

Lemma triple_take_action (a : action) (l : list string) (st : pstate) :
  a ∈ acts → good acts st → triple true (take_action a l st) (good acts).
Proof.
  intros Ha Hst. unfold take_action. destruct (kind a).
  - eapply triple_bind; [now apply triple_get_values |].
    intros v _. apply triple_ret. now apply good_insert.
  - intros w. unfold bind, emit, sys_exit, raise. simpl. constructor.
Qed.

Lemma allot_actions (l : list action) :
  ∀ spare strs a args,
    (a, args) ∈ (allot l spare strs).1 → a ∈ l.
Proof.
  induction l as [|b l IH]; intros spare strs a args; simpl.
  - intros H. now apply elem_of_nil in H.
  - destruct (allot l _ _) as [pairs unused] eqn:E. simpl.
    intros [[= -> _] | H]%elem_of_cons; [left |].
    right. eapply IH. rewrite E. exact H.
Qed.

Lemma triple_consume_positionals (strs : list string) (st : pstate) :
  good acts st → triple true (consume_positionals strs st) (good acts).
Proof.
  intros [Hp Hk]. unfold consume_positionals.
  set (k := Nat.min _ _).
  destruct (allot _ _ _) as [pairs unused] eqn:E.
  eapply triple_bind.
  - apply (triple_foldM true _ (good acts)).
    + intros s [a args] Hs Hin. apply triple_take_action; [| exact Hs].
      apply Hp.
      assert (Ha : a ∈ take k (positionals st))
        by (eapply allot_actions; rewrite E; exact Hin).
      apply elem_of_take in Ha as (i & Hi & _).
      eapply list_elem_of_lookup_2. exact Hi.
    + split; [| exact Hk]. simpl. intros a Ha. apply Hp.
      eapply subseteq_drop. exact Ha.
  - intros st' [Hp' Hk']. apply triple_ret. split; assumption.
Qed.

Lemma triple_consume_optional (st : pstate) (g : string * list string) :
  good acts st → triple true (consume_optional acts st g) (good acts).
Proof.
  intros Hst. destruct g as [s strs]. unfold consume_optional.
  destruct (find _ acts) as [a|] eqn:E.
  - apply find_some in E as [Ha%list_elem_of_In _].
    destruct (kind a) eqn:Ek.
    + destruct (nargs a), strs as [|x rest];
        try apply triple_raise; try now apply triple_take_action.
      eapply triple_bind; [now apply triple_take_action |].
      intros st' Hst'. now apply triple_consume_positionals.
    + destruct (nargs a), strs; now apply triple_take_action.
  - apply triple_consume_positionals. destruct Hst. split; assumption.
Qed.

Lemma defaults_keys (l : list action) (k : string) :
  ∀ m : gmap string pyval,
    is_Some (foldl (fun m a =>
                      match default a, m !! dest a with
                      | Some v, None => <[dest a := v]> m
                      | _, _ => m
                      end) m l !! k) →
    is_Some (m !! k) ∨ k ∈ dest <$> l.
Proof.
  induction l as [|a l IH]; intros m; simpl; [auto |].
  intros [Hm | Hl]%IH; [| right; now right].
  destruct (default a) as [v|]; [| auto].
  destruct (m !! dest a); [auto |].
  destruct (decide (k = dest a)) as [-> | Hne]; [right; left |].
  rewrite lookup_insert_ne in Hm by congruence. auto.
Qed.

Lemma init_defaults_keys (l : list action) (k : string) :
  is_Some (init_defaults l !! k) → k ∈ dest <$> l.
Proof.
  unfold init_defaults.
  intros [Hm | Hl]%defaults_keys; [| exact Hl].
  rewrite lookup_empty in Hm. now destruct Hm.
Qed.

Lemma triple_finish (st : pstate) :
  good acts st → triple true (finish acts st) (λ r, keys_ok acts r.1).
Proof.
  intros [_ Hk]. unfold finish.
  eapply triple_bind.
  - apply (triple_foldM true _ (λ r, keys_ok acts r.1)); [| exact Hk].
    intros [m missing] a Hm Ha. unfold keys_ok in *. simpl in Hm.
    destruct (bool_decide _); [now apply triple_ret |].
    destruct (required a); [now apply triple_ret |].
    destruct (default a) as [[| | | s |]|]; try now apply triple_ret.
    eapply triple_bind; [now apply triple_get_value |].
    intros v _. apply triple_ret. simpl.
    intros k Hs. destruct (decide (k = dest a)) as [-> | Hne].
    + apply list_elem_of_fmap. eauto.
    + rewrite lookup_insert_ne in Hs by congruence. auto.
  - intros [m missing] Hm. destruct missing; [now apply triple_ret |].
    apply triple_error.
Qed.

Lemma triple_parse_known_args_inner (toks : list token) :
  triple true (_parse_known_args acts toks) (λ r, keys_ok acts r.1).
Proof.
  unfold _parse_known_args. destruct (groups toks) as [strs gs].
  eapply triple_bind.
  - apply triple_consume_positionals. split; simpl.
    + intros a Ha. apply list_elem_of_filter in Ha. tauto.
    + apply init_defaults_keys.
  - intros st Hst. eapply triple_bind.
    + apply (triple_foldM true _ (good acts)); [| exact Hst].
      intros b g Hb _. now apply triple_consume_optional.
    + intros st' Hst'. now apply triple_finish.
Qed.

Lemma triple_parse_known_args (toks : list token) :
  triple false (parse_known_args acts toks) (λ r, keys_ok acts r.1).
Proof.
  intros w. unfold parse_known_args, try_except_as.
  pose proof (triple_parse_known_args_inner toks w) as H.
  inversion H; subst; simpl; now constructor.
Qed.

End Engine.

(** ** [main] on every command line *)

Lemma built_quiet (refdict : list string) (name : string) (sub : nat) :
  (name, sub) ∈ name_parser_map (built refdict) →
  (∀ a, a ∈ actions_of (built refdict) sub → quiet_action a) ∧
  "variables"%string ∉ dest <$> actions_of (built refdict) sub.
Proof.
  simpl. intros H.
  repeat (apply elem_of_cons in H as [[= -> ->] | H]);
    [| | | now apply elem_of_nil in H]; simpl; split.
  all: try (intros a Ha;
            repeat (apply elem_of_cons in Ha as [-> | Ha]);
            [.. | now apply elem_of_nil in Ha]; intros s;
            first [apply quiet_type_str | apply quiet_type_bool
                  | apply quiet_type_str_seq]).
  all: intros Hv;
    repeat (apply elem_of_cons in Hv as [Hv | Hv]; [discriminate |]);
    now apply elem_of_nil in Hv.
Qed.

Lemma triple_parse_command (refdict : list string) (toks : list token) :
  ∀ unknown,
    triple false (parse_command (built refdict) 0 toks unknown)
      (λ r, r.1 !! "variables"%string = None).
Proof.
  induction toks as [|t toks IH]; intros unknown; cbn [parse_command].
  - apply triple_error.
  - destruct t as [name | s].
    + match goal with
      | |- context [list_find ?P ?l] =>
          destruct (list_find P l) as [[i [n sub]]|] eqn:E
      end; [| apply triple_error].
      apply list_find_Some in E as (Hi & _ & _).
      apply list_elem_of_lookup_2 in Hi.
      destruct (built_quiet refdict n sub Hi) as [Hq Hv].
      eapply triple_bind; [now apply triple_parse_known_args |].
      intros [m unused] Hm. apply triple_ret. cbn [fst].
      apply lookup_union_None. split.
      * destruct (m !! "variables"%string) eqn:Em; [| reflexivity].
        exfalso. apply Hv, Hm. eauto.
      * apply lookup_singleton_ne. discriminate.
    + change (actions_of (built refdict) 0) with [help_action].
      cbn [find]. destruct (bool_decide _); [| apply IH].
      eapply (triple_bind _ _ _ (λ _, False)); [| intros ? []].
      intros w. exact (outcome_help _ _ _).
Qed.

Lemma triple_command_line (refdict : list string) (argv : list token) :
  triple false (command_line refdict argv)
    (λ m, m !! "variables"%string = None).
Proof.
  unfold command_line. rewrite declarations_built. unfold parse_args.
  eapply triple_bind; [apply triple_parse_command |].
  intros [m rest] Hm. destruct rest; [now apply triple_ret |].
  apply triple_error.
Qed.

Lemma dispatch_run (refdict : list string) (args : gmap string pyval)
    (w : world) :
  args !! "variables"%string = None →
  dispatch args w =
  match args !! "type"%string with
  | Some v => (Ret tt, World (output w) (calls w ++ [InfoNew v; InfoList v]))
  | None => (Raise (AttributeError "variables"), w)
  end.
Proof.
  intros Hv. unfold dispatch, try_except, try_except_as, bind, getattr.
  destruct (args !! "type"%string) as [v|]; simpl.
  - unfold record. simpl. now rewrite <- app_assoc.
  - now rewrite Hv.
Qed.

(** How a run of [main] can end. *)
Lemma main_outcomes (refdict : list string) (argv : list token) :
  (∃ e, run (command_line refdict argv)
        = (Raise (SystemExit (Some 2)), World [ParserError e] []) ∧
        python (main refdict argv) = Process [ParserError e] [] 2) ∨
  (run (command_line refdict argv)
   = (Raise (SystemExit (Some 0)), World [ParserHelp] []) ∧
   python (main refdict argv) = Process [ParserHelp] [] 0) ∨
  (∃ args, run (command_line refdict argv) = (Ret args, world0) ∧
     ((∃ v, python (main refdict argv)
            = Process [] [InfoNew v; InfoList v] 0) ∨
      python (main refdict argv)
      = Process [Traceback (AttributeError "variables")] [] 1)).
Proof.
  pose proof (triple_command_line refdict argv world0) as H.
  unfold python, main, run, bind.
  destruct (command_line refdict argv world0) as [[m|e] w] eqn:E.
  - inversion H as [x Hm | | |]; subst.
    right. right. exists m. split; [reflexivity |].
    rewrite (dispatch_run refdict m world0 Hm).
    destruct (m !! "type"%string) as [v|]; [left; exists v | right];
      reflexivity.
  - inversion H as [| e' He | | e']; subst.
    + discriminate.
    + right. left. split; reflexivity.
    + left. exists e'. split; reflexivity.
Qed.


(** ** The command surface *)

Lemma py_in_strs (s : string) (l : list string) :
  s ∈ l → py_in (VStr s) (VStr <$> l) = true.
Proof.
  intros H. unfold py_in. apply existsb_exists. exists (VStr s). split.
  - apply list_elem_of_In, list_elem_of_fmap. eauto.
  - simpl. apply String.eqb_refl.
Qed.

(** C1, on the code.  The hourly request of the specification's example is
    turned down while its words are read: [--product] converts its value
    with [str_seq], which raises [ValueError] on "reanalysis"; the parser
    reports the value as invalid, the process ends with status 2 and the
    Fetch Engine is not called. *)
Theorem hourly_request_rejected (refdict : list string) :
  run (str_seq "reanalysis") = (Raise ValueError, world0) ∧
  python (main refdict hourly_request)
  = Process [ParserError (InvalidValue "product" "reanalysis")] [] 2.
Proof. split; vm_compute; reflexivity. Qed.

(** C8.  With "pressure_levels" among the keys of the reference
    dictionary, [info pressure_levels] makes exactly one call to the Info
    Service's listing operation, on the object built from that token, and
    no call to the Fetch Engine. *)
Theorem info_request_lists (refdict : list string) :
  "pressure_levels"%string ∈ refdict →
  python (main refdict info_request)
  = Process [] [InfoNew (VStr "pressure_levels");
                InfoList (VStr "pressure_levels")] 0 ∧
  filter (λ c, is_info_list c = true)
         (dispatched (python (main refdict info_request)))
  = [InfoList (VStr "pressure_levels")] ∧
  filter (λ c, is_fetch c = true)
         (dispatched (python (main refdict info_request))) = [].
Proof.
  intros H. apply py_in_strs in H.
  assert (Hrun : python (main refdict info_request)
                 = Process [] [InfoNew (VStr "pressure_levels");
                               InfoList (VStr "pressure_levels")] 0).
  { unfold python, run, main, command_line, bind.
    rewrite declarations_built.
    unfold built, arg_type.
    revert H. generalize (VStr <$> refdict). intros cs H.
    lazy -[py_in]. rewrite H. vm_compute. reflexivity. }
  rewrite Hrun. repeat split; reflexivity.
Qed.

Lemma info_request_lists_witness :
  python (main ["variables"; "pressure_levels"]%string info_request)
  = Process [] [InfoNew (VStr "pressure_levels");
                InfoList (VStr "pressure_levels")] 0.
Proof.
  apply (info_request_lists ["variables"; "pressure_levels"]%string).
  apply (bool_decide_eq_true_1 _). reflexivity.
Defined.


Lemma py_in_strs_false (s : string) (l : list string) :
  s ∉ l → py_in (VStr s) (VStr <$> l) = false.
Proof.
  induction l as [|x l IH]; intros H; [reflexivity |].
  apply not_elem_of_cons in H as [Hx Hl].
  change (py_in (VStr s) (VStr <$> x :: l))
    with (String.eqb s x || py_in (VStr s) (VStr <$> l)).
  rewrite (IH Hl), orb_false_r. now apply String.eqb_neq.
Qed.





(** * Further properties of the code *)

(** ** [str_seq] and [seq_to_list] *)


Lemma count_no_sep (c : ascii) (s : string) :
  contains c s = false → count_char c s = 0%nat.
Proof.
  induction s as [|d r IH]; simpl; [reflexivity |].
  intros [-> Hr]%orb_false_iff. now rewrite (IH Hr).
Qed.

Lemma range_lookup_inv (a b : Z) (i : nat) (x : Z) :
  Py.range a b !! i = Some x → x = a + Z.of_nat i.
Proof.
  unfold Py.range. rewrite list_lookup_fmap.
  destruct (seq 0 (Z.to_nat (b - a)) !! i) as [j|] eqn:E; [| discriminate].
  apply lookup_seq in E as [-> _]. simpl. now intros [= <-].
Qed.

Lemma range_block (a b : Z) :
  Py.range a b = Py.range a (a + Z.of_nat (length (Py.range a b))).
Proof.
  rewrite length_range. unfold Py.range. do 2 f_equal. lia.
Qed.

(** What [str_seq] can return, and from what. *)
Lemma str_seq_returns (tok : string) (l : list Z) :
  (run (str_seq tok)).1 = Ret l →
  (∃ n, Py.int tok = Some n ∧ l = [n]) ∨
  (∃ first last a b,
      Py.int tok = None ∧ Py.split "/" tok = [first; last] ∧
      Py.int first = Some a ∧ Py.int last = Some b ∧
      l = Py.range a (b + 1)).
Proof.
  unfold run, str_seq, try_except, try_except_as, bind, int.
  destruct (Py.int tok) as [n|] eqn:En; simpl.
  - intros [= <-]. left. eauto.
  - unfold seq_to_list.
    destruct (Py.split "/" tok) as [|first [|last [|x r]]]; simpl;
      try discriminate.
    unfold bind, int.
    destruct (Py.int first) as [a|] eqn:Ea; simpl; [| discriminate].
    destruct (Py.int last) as [b|] eqn:Eb; simpl; [| discriminate].
    intros [= <-]. right. exists first, last, a, b. auto.
Qed.

(** X1.  Whatever [str_seq] returns is a block of consecutive integers in
    ascending order: the list from its first element on, one step at a
    time (the empty list included).  In particular each element is its
    predecessor plus one. *)
Theorem str_seq_consecutive (tok : string) (l : list Z) :
  (run (str_seq tok)).1 = Ret l →
  (∃ a, l = Py.range a (a + Z.of_nat (length l))) ∧
  (∀ (i : nat) x y, l !! i = Some x → l !! S i = Some y → y = x + 1).
Proof.
  intros H.
  assert (Hb : ∃ a, l = Py.range a (a + Z.of_nat (length l))).
  { apply str_seq_returns in H
      as [(n & _ & ->) | (first & last & a & b & _ & _ & _ & _ & ->)].
    - exists n. change (Z.of_nat (length [n])) with 1. unfold Py.range.
      replace (n + 1 - n) with 1 by lia. simpl. f_equal. lia.
    - exists a. apply range_block. }
  split; [exact Hb |].
  destruct Hb as [a Hl]. intros i x y Hx Hy.
  rewrite Hl in Hx, Hy.
  apply range_lookup_inv in Hx, Hy. lia.
Qed.

Lemma str_seq_consecutive_witness :
  (∃ a, [7; 8; 9] = Py.range a (a + Z.of_nat (length [7; 8; 9]))) ∧
  (∀ (i : nat) x y,
      [7; 8; 9] !! i = Some x → [7; 8; 9] !! S i = Some y → y = x + 1).
Proof.
  apply (str_seq_consecutive "7/9" [7; 8; 9]). reflexivity.
Defined.



(** ** The bounded normalizers *)

(** X3.  The bounds are inclusive and nothing else is accepted: the day
    normalizer returns exactly for the tokens whose integer value is in
    1..31, the month normalizer for 1..12, the hour normalizer for 0..23. *)
Theorem normalizers_accept_iff (tok : string) :
  ((∃ r, (run (zpad_days tok)).1 = Ret r) ↔
   ∃ n, Py.int tok = Some n ∧ 1 <= n <= 31) ∧
  ((∃ r, (run (zpad_months tok)).1 = Ret r) ↔
   ∃ n, Py.int tok = Some n ∧ 1 <= n <= 12) ∧
  ((∃ r, (run (format_hours tok)).1 = Ret r) ↔
   ∃ n, Py.int tok = Some n ∧ 0 <= n <= 23).
Proof.
  split; [| split].
  - unfold zpad_days. rewrite <- judge_accepted, zpadlist_run.
    destruct (judge tok 1 31); simpl; split;
      try discriminate; try (intros [r [=]]); eauto.
  - unfold zpad_months. rewrite <- judge_accepted, zpadlist_run.
    destruct (judge tok 1 12); simpl; split;
      try discriminate; try (intros [r [=]]); eauto.
  - rewrite <- judge_accepted, format_hours_run.
    destruct (judge tok 0 23); simpl; split;
      try discriminate; try (intros [r [=]]); eauto.
Qed.

Lemma normalizers_accept_iff_witness :
  (∃ r, (run (zpad_days "31")).1 = Ret r) ∧
  (∃ n, Py.int "0" = Some n ∧ 0 <= n <= 23).
Proof.
  split.
  - apply (proj1 (normalizers_accept_iff "31")). exists 31.
    split; [reflexivity | lia].
  - apply (proj2 (proj2 (normalizers_accept_iff "0"))). exists "00:00"%string.
    reflexivity.
Defined.

(** A token of one character that reads as an integer is a digit, so
    zero-filling it to two characters keeps its value. *)
Lemma int_zfill (tok : string) (n : Z) :
  Py.int tok = Some n → Py.int (Py.zfill 2 tok) = Some n.
Proof.
  intros H. unfold Py.zfill.
  destruct (Nat.leb_spec 2 (String.length tok)) as [_ | Hlt]; [exact H |].
  destruct tok as [|c [|d r]]; [discriminate H | | simpl in Hlt; lia].
  destruct c as [[] [] [] [] [] [] [] []];
    first [discriminate H | exact H].
Qed.

Lemma zfill_zfill (s : string) : Py.zfill 2 (Py.zfill 2 s) = Py.zfill 2 s.
Proof.
  pose proof (length_zfill 2 s) as H.
  unfold Py.zfill at 1.
  destruct (Nat.leb_spec 2 (String.length (Py.zfill 2 s))); [reflexivity | lia].
Qed.

(** X4.  Normalizing keeps the value and is idempotent: the token that the
    day (month) normalizer returns reads as the same integer as the token
    it was given, and is returned unchanged when normalized again.  The
    hour normalizer returns the zero-filled token, of the same value,
    followed by ":00". *)
Theorem normalizers_keep_value (tok r : string) :
  ((run (zpad_days tok)).1 = Ret r →
   Py.int r = Py.int tok ∧ run (zpad_days r) = (Ret r, world0)) ∧
  ((run (zpad_months tok)).1 = Ret r →
   Py.int r = Py.int tok ∧ run (zpad_months r) = (Ret r, world0)) ∧
  ((run (format_hours tok)).1 = Ret r →
   ∃ hh, r = hh +:+ ":00" ∧ Py.int hh = Py.int tok ∧
         String.length hh = Nat.max 2 (String.length tok)).
Proof.
  assert (Hz : ∀ ty lo hi,
             (run (zpadlist tok ty lo hi)).1 = Ret r →
             Py.int r = Py.int tok ∧
             run (zpadlist r ty lo hi) = (Ret r, world0)).
  { intros ty lo hi H.
    apply zpadlist_returns in H as [(n & Hn & Hb) ->].
    pose proof (int_zfill _ _ Hn) as Hr.
    split; [congruence |].
    rewrite zpadlist_run.
    assert (Hj : judge (Py.zfill 2 tok) lo hi = Accepted)
      by (apply judge_accepted; eauto).
    rewrite Hj. now rewrite zfill_zfill. }
  split; [apply Hz | split; [apply Hz |]].
  rewrite format_hours_run.
  destruct (judge tok 0 23) eqn:E; simpl; try discriminate.
  intros [= <-]. apply judge_accepted in E as (n & Hn & _).
  exists (Py.zfill 2 tok).
  split; [reflexivity |]. split; [| apply length_zfill].
  rewrite Hn. now apply int_zfill.
Qed.

Lemma normalizers_keep_value_witness :
  (Py.int "07" = Py.int "7" ∧ run (zpad_days "07") = (Ret "07", world0)) ∧
  (∃ hh, "07:00"%string = hh +:+ ":00" ∧ Py.int hh = Py.int "7" ∧
         String.length hh = Nat.max 2 (String.length "7")).
Proof.
  split.
  - apply (proj1 (normalizers_keep_value "7" "07")). reflexivity.
  - apply (proj2 (proj2 (normalizers_keep_value "7" "07:00"))). reflexivity.
Defined.

(** X5.  How the normalizers fail.  On a token whose integer value is
    outside the bound, [zpadlist] prints "Invalid <type> argument: <token>"
    and leaves through [sys.exit()], which ends the process with status 0.
    On a token that is no integer nothing is printed: [ValueError] leaves
    the helper, and a process that does not catch it ends with status 1.
    [format_hours] does the same with the field name "hours". *)
Theorem normalizers_fail (tok ty : string) (lo hi : Z) :
  (∀ n, Py.int tok = Some n → ¬ (lo <= n <= hi) →
        run (zpadlist tok ty lo hi)
        = (Raise (SystemExit None),
           World [Print ("Invalid " +:+ ty +:+ " argument: " +:+ tok)] []) ∧
        status (standalone (zpadlist tok ty lo hi)) = 0) ∧
  (Py.int tok = None →
        run (zpadlist tok ty lo hi) = (Raise ValueError, world0) ∧
        standalone (zpadlist tok ty lo hi)
        = Process [Traceback ValueError] [] 1) ∧
  (∀ n, Py.int tok = Some n → ¬ (0 <= n <= 23) →
        run (format_hours tok)
        = (Raise (SystemExit None),
           World [Print ("Invalid hours argument: " +:+ tok)] []) ∧
        status (standalone (format_hours tok)) = 0) ∧
  (Py.int tok = None →
        run (format_hours tok) = (Raise ValueError, world0) ∧
        standalone (format_hours tok) = Process [Traceback ValueError] [] 1).
Proof.
  split; [| split; [| split]].
  - intros n Hn Hb.
    pose proof (zpadlist_out_of_range tok ty lo hi n Hn Hb) as H.
    split; [exact H |].
    unfold standalone, python, run, bind in *. now rewrite H.
  - intros Hn.
    pose proof (zpadlist_not_an_integer tok ty lo hi Hn) as H.
    split; [exact H |].
    unfold standalone, python, run, bind in *. now rewrite H.
  - intros n Hn Hb.
    pose proof (format_hours_out_of_range tok n Hn Hb) as H.
    split; [exact H |].
    unfold standalone, python, run, bind in *. now rewrite H.
  - intros Hn.
    pose proof (format_hours_not_an_integer tok Hn) as H.
    split; [exact H |].
    unfold standalone, python, run, bind in *. now rewrite H.
Qed.

Lemma normalizers_fail_witness :
  (run (zpadlist "0" "days" 1 31)
   = (Raise (SystemExit None),
      World [Print ("Invalid " +:+ "days" +:+ " argument: " +:+ "0")] []) ∧
   status (standalone (zpadlist "0" "days" 1 31)) = 0) ∧
  (run (format_hours "midnight") = (Raise ValueError, world0) ∧
   standalone (format_hours "midnight") = Process [Traceback ValueError] [] 1).
Proof.
  split.
  - apply (proj1 (normalizers_fail "0" "days" 1 31) 0); [reflexivity | lia].
  - apply (proj2 (proj2 (proj2 (normalizers_fail "midnight" "hours" 0 23)))).
    reflexivity.
Defined.

(** ** [format_split] *)

(** X6.  What [format_split] returns is [None] or a word of the vocabulary:
    it returns [None] exactly for an absent or empty token, and a token it
    returns is "variable" or "year" and is returned unchanged when
    validated again.  It never fails otherwise than by printing one line
    and leaving through [sys.exit()]. *)
Theorem format_split_results (o : option string) :
  ((run (format_split o)).1 = Ret None ↔ o = None ∨ o = Some ""%string) ∧
  (∀ r, (run (format_split o)).1 = Ret (Some r) →
        (r = "variable"%string ∨ r = "year"%string) ∧
        run (format_split (Some r)) = (Ret (Some r), world0)) ∧
  (∀ e, (run (format_split o)).1 = Raise e →
        ∃ s, o = Some s ∧ e = SystemExit None ∧
             output (run (format_split o)).2
             = [Print ("Invalid split argument: " +:+ s)]).
Proof.
  destruct o as [s|].
  2: { split; [| split].
       - split; [now left | reflexivity].
       - intros r [=].
       - intros e [=]. }
  rewrite format_split_run.
  destruct s as [|c s'].
  { split; [| split].
    - split; [now right | reflexivity].
    - intros r [=].
    - intros e [=]. }
  remember (Py.lower (String c s')) as r0 eqn:Hr0.
  destruct (bool_decide (r0 ∈ ["variable"; "year"]%string)) eqn:E; simpl.
  - split; [| split].
    + split; [discriminate | intros [[=] | [=]]].
    + intros r [= <-]. apply bool_decide_eq_true in E.
      apply elem_of_cons in E as [-> | E]; [split; [now left | reflexivity] |].
      apply elem_of_cons in E as [-> | E]; [split; [now right | reflexivity] |].
      now apply elem_of_nil in E.
    + intros e [=].
  - split; [| split].
    + split; [discriminate | intros [[=] | [=]]].
    + intros r [=].
    + intros e [= <-]. exists (String c s'). auto.
Qed.

Lemma format_split_results_witness :
  ("year"%string = "variable"%string ∨ "year"%string = "year"%string) ∧
  run (format_split (Some "year")) = (Ret (Some "year"%string), world0).
Proof.
  apply (proj1 (proj2 (format_split_results (Some "YEAR"%string)))).
  reflexivity.
Defined.

(** ** [main] *)







(** X9.  [main] never reaches the Fetch Engine: on no command line is a
    [Fetch] object created or its [fetch] method called. *)
Theorem fetch_engine_unreachable (refdict : list string)
    (argv : list token) (c : call) :
  c ∈ dispatched (python (main refdict argv)) → is_fetch c = false.
Proof.
  destruct (main_outcomes refdict argv)
    as [(e & _ & ->) | [[_ ->] | (m & _ & [[v ->] | ->])]]; simpl;
    intros H.
  - now apply elem_of_nil in H.
  - now apply elem_of_nil in H.
  - apply elem_of_cons in H as [-> | H]; [reflexivity |].
    apply elem_of_cons in H as [-> | H]; [reflexivity |].
    now apply elem_of_nil in H.
  - now apply elem_of_nil in H.
Qed.

Lemma fetch_engine_unreachable_witness :
  is_fetch (InfoList (VStr "levels")) = false.
Proof.
  apply (fetch_engine_unreachable ["levels"]%string
           [Arg "info"; Arg "levels"]).
  vm_compute. right. left.
Defined.

(** X10.  A monthly request that gives both of its required flags, and
    nothing else, is parsed and then fails: [main] looks for
    [args.variables], which the monthly parser does not define, and the
    process ends with the uncaught [AttributeError] and status 1, whatever
    the values of the flags. *)
Theorem monthly_request_crashes (refdict : list string)
    (fe fs e s : string) :
  fe ∈ ["-e"; "--ensemble"]%string → fs ∈ ["-s"; "--synaptic"]%string →
  python (main refdict [Arg "fetchmonthly"; Opt fe; Arg e; Opt fs; Arg s])
  = Process [Traceback (AttributeError "variables")] [] 1 ∧
  python (main refdict [Arg "fetchmonthly"; Opt fs; Arg s; Opt fe; Arg e])
  = Process [Traceback (AttributeError "variables")] [] 1.
Proof.
  intros He Hs.
  apply elem_of_cons in He as [-> | He];
    [| apply elem_of_cons in He as [-> | He];
       [| now apply elem_of_nil in He]];
  (apply elem_of_cons in Hs as [-> | Hs];
    [| apply elem_of_cons in Hs as [-> | Hs];
       [| now apply elem_of_nil in Hs]]);
  split; vm_compute; reflexivity.
Qed.

Lemma monthly_request_crashes_witness :
  python (main [] [Arg "fetchmonthly"; Opt "-e"; Arg "False";
                   Opt "--synaptic"; Arg "yes"])
  = Process [Traceback (AttributeError "variables")] [] 1.
Proof.
  apply (monthly_request_crashes [] "-e" "--synaptic" "False" "yes").
  - apply (bool_decide_eq_true_1 _). reflexivity.
  - apply (bool_decide_eq_true_1 _). reflexivity.
Defined.


Lemma take_type (cs : list pyval) (tok : string) (st : pstate) (w : world) :
  take_action (Action Store [] "type" One type_str (Some cs) true (Some VNone))
    [tok] st w
  = if py_in (VStr tok) cs
    then (Ret (PState (<["type"%string := VStr tok]> (ns st))
                      ("type"%string :: seen st) (positionals st) (extras st)),
          w)
    else (Raise (ArgumentError (InvalidChoice "type" (VStr tok))), w).
Proof.
  unfold take_action, _get_values, _get_value, _check_value, try_except,
    try_except_as, bind, type_str, ret, raise.
  cbn [kind nargs type choices dest].
  destruct (py_in (VStr tok) cs); reflexivity.
Qed.

Lemma info_parse (cs : list pyval) (tok : string) (w : world) :
  parse_known_args
    [help_action;
     Action Store [] "type" One type_str (Some cs) true (Some VNone)]
    [Arg tok] w
  = if py_in (VStr tok) cs
    then (Ret (<["type"%string := VStr tok]>
                 (init_defaults
                    [help_action;
                     Action Store [] "type" One type_str (Some cs) true
                            (Some VNone)]), []), w)
    else (Raise (SystemExit (Some 2)),
          World (output w ++ [ParserError (InvalidChoice "type" (VStr tok))])
                (calls w)).
Proof.
  unfold parse_known_args, try_except_as, _parse_known_args, bind.
  cbn [groups].
  match goal with
  | |- context [filter ?P ?l] =>
      change (filter P l)
        with [Action Store [] "type" One type_str (Some cs) true (Some VNone)]
  end.
  unfold consume_positionals.
  cbn [positionals length Nat.min take drop allot nargs fst snd foldM ns seen
       extras Nat.sub].
  unfold bind. rewrite take_type.
  destruct (py_in (VStr tok) cs); reflexivity.
Qed.

Lemma info_run (refdict : list string) (tok : string) :
  python (main refdict [Arg "info"; Arg tok])
  = if py_in (VStr tok) (VStr <$> refdict)
    then Process [] [InfoNew (VStr tok); InfoList (VStr tok)] 0
    else Process [ParserError (InvalidChoice "type" (VStr tok))] [] 2.
Proof.
  unfold python, run, main, command_line, bind, parse_args.
  rewrite declarations_built. cbn [parse_command].
  change (list_find (λ e : string * nat, e.1 = "info"%string)
            (name_parser_map (built refdict)))
    with (Some (2%nat, ("info"%string, 4%nat))).
  cbv beta iota.
  change (actions_of (built refdict) 4)
    with [help_action;
          Action Store [] "type" One type_str (Some (VStr <$> refdict)) true
                 (Some VNone)].
  unfold bind. rewrite info_parse.
  destruct (py_in (VStr tok) (VStr <$> refdict)).
  - vm_compute. reflexivity.
  - reflexivity.
Qed.

(** X12.  An [info] query is answered exactly for the keys of the reference
    dictionary: for a key, the Info Service is created with the token and
    lists once, and the process ends with status 0; for any other token
    the parser reports an invalid choice, the process ends with status 2
    and the Info Service is not called. *)
Theorem info_query_iff_key (refdict : list string) (tok : string) :
  python (main refdict [Arg "info"; Arg tok])
  = if bool_decide (tok ∈ refdict)
    then Process [] [InfoNew (VStr tok); InfoList (VStr tok)] 0
    else Process [ParserError (InvalidChoice "type" (VStr tok))] [] 2.
Proof.
  rewrite info_run.
  destruct (bool_decide (tok ∈ refdict)) eqn:E.
  - apply bool_decide_eq_true in E. now rewrite py_in_strs.
  - apply bool_decide_eq_false in E. now rewrite py_in_strs_false.
Qed.

(** X13.  A command line whose first word is a plain argument other than
    the three sub-command names is turned down, whatever follows: the
    parser reports an invalid choice for [command] and the process ends
    with status 2.  A command line without any plain argument and
    without the help option is turned down for the missing command. *)
Theorem unknown_command_rejected (refdict : list string) :
  (∀ name rest, name ∉ commands →
      python (main refdict (Arg name :: rest))
      = Process [ParserError (InvalidChoice "command" (VStr name))] [] 2) ∧
  (∀ opts, Forall (λ s, s ∉ ["-h"; "--help"]%string) opts →
      python (main refdict (Opt <$> opts))
      = Process [ParserError (MissingRequired ["command"])] [] 2).
Proof.
  split.
  - intros name rest H.
    assert (E : list_find (λ e : string * nat, e.1 = name)
                  (name_parser_map (built refdict)) = None).
    { apply list_find_None. cbn [name_parser_map built].
      repeat apply Forall_cons_2; [.. | apply Forall_nil_2];
        cbn [fst]; intros Hn; apply H; rewrite <- Hn; unfold commands.
      - left.
      - right. left.
      - right. right. left. }
    unfold python, run, main, command_line, bind, parse_args.
    rewrite declarations_built. cbn [parse_command].
    unfold bind. rewrite E. reflexivity.
  - intros opts H.
    assert (G : ∀ unknown,
              parse_command (built refdict) 0 (Opt <$> opts) unknown world0
              = (Raise (SystemExit (Some 2)),
                 World [ParserError (MissingRequired ["command"])] [])).
    { induction H as [|s opts Hs _ IH]; intros unknown; [reflexivity |].
      cbn [fmap list_fmap parse_command].
      change (actions_of (built refdict) 0) with [help_action].
      cbn [find option_strings help_action].
      rewrite bool_decide_eq_false_2 by exact Hs. apply IH. }
    unfold python, run, main, command_line, bind, parse_args.
    rewrite declarations_built. unfold bind. rewrite G. reflexivity.
Qed.

Lemma unknown_command_rejected_witness :
  python (main [] [Arg "fetch"; Opt "--years"; Arg "2015"])
  = Process [ParserError (InvalidChoice "command" (VStr "fetch"))] [] 2 ∧
  python (main [] (Opt <$> ["--years"; "-x"]%string))
  = Process [ParserError (MissingRequired ["command"])] [] 2.
Proof.
  split.
  - apply (proj1 (unknown_command_rejected [])).
    apply (bool_decide_eq_false_1 _). reflexivity.
  - apply (proj2 (unknown_command_rejected [])).
    apply (bool_decide_unpack _). reflexivity.
Defined.



(** X15.  What [main] does with a parsed namespace (lines 212-232) depends
    on the attribute [type] alone.  If it is there, the Info Service is
    created with it and lists, whatever else the namespace holds.  If it is
    not, the ten attributes of a request are read; when all are there, the
    Fetch Engine is created with years, months, days, hours, variables,
    format, output prefix, split and threads, in this order, and asked to
    fetch, and [levels], though read, is not passed on; a request without
    [levels] fails with [AttributeError] before any call. *)
Theorem dispatch_by_type (args : gmap string pyval) (w : world) :
  (∀ v, args !! "type"%string = Some v →
        dispatch args w
        = (Ret tt, World (output w) (calls w ++ [InfoNew v; InfoList v]))) ∧
  (∀ variables months days hours split format threads years outputprefix,
      args !! "type"%string = None →
      args !! "variables"%string = Some variables →
      args !! "months"%string = Some months →
      args !! "days"%string = Some days →
      args !! "hours"%string = Some hours →
      args !! "split"%string = Some split →
      args !! "format"%string = Some format →
      args !! "threads"%string = Some threads →
      args !! "years"%string = Some years →
      args !! "outputprefix"%string = Some outputprefix →
      (∀ levels, args !! "levels"%string = Some levels →
         dispatch args w
         = (Ret tt,
            World (output w)
                  (calls w ++ [FetchNew years months days hours variables
                                        format outputprefix split threads;
                               FetchFetch]))) ∧
      (args !! "levels"%string = None →
         dispatch args w = (Raise (AttributeError "levels"), w))).
Proof.
  split.
  - intros v Hv.
    unfold dispatch, try_except, try_except_as, bind, getattr, record.
    rewrite Hv. simpl. now rewrite <- app_assoc.
  - intros variables months days hours split format threads years
      outputprefix Ht H1 H2 H3 H4 H5 H6 H7 H8 H9.
    split.
    + intros levels Hl.
      unfold dispatch, try_except, try_except_as, bind, getattr, record.
      rewrite Ht, H1, H2, H3, H4, H5, H6, H7, H8, H9, Hl. simpl.
      now rewrite <- app_assoc.
    + intros Hl.
      unfold dispatch, try_except, try_except_as, bind, getattr, record.
      rewrite Ht, H1, H2, H3, H4, H5, H6, H7, Hl. reflexivity.
Qed.

Lemma dispatch_by_type_witness :
  dispatch (list_to_map [("type"%string, VStr "levels");
                         ("variables"%string, strs ["t2m"%string])])
           world0
  = (Ret tt, World [] [InfoNew (VStr "levels"); InfoList (VStr "levels")]) ∧
  dispatch (list_to_map [("variables"%string, VInt 1);
                         ("months"%string, VInt 2); ("days"%string, VInt 3);
                         ("hours"%string, VInt 4); ("split"%string, VInt 5);
                         ("format"%string, VInt 6);
                         ("threads"%string, VInt 7);
                         ("levels"%string, VInt 8); ("years"%string, VInt 9);
                         ("outputprefix"%string, VInt 10)])
           world0
  = (Ret tt,
     World [] [FetchNew (VInt 9) (VInt 2) (VInt 3) (VInt 4) (VInt 1) (VInt 6)
                        (VInt 10) (VInt 5) (VInt 7);
               FetchFetch]).
Proof.
  split.
  - apply (proj1 (dispatch_by_type _ world0) (VStr "levels")).
    vm_compute. reflexivity.
  - refine (proj1 (proj2 (dispatch_by_type _ world0)
                     (VInt 1) (VInt 2) (VInt 3) (VInt 4) (VInt 5) (VInt 6)
                     (VInt 7) (VInt 9) (VInt 10) _ _ _ _ _ _ _ _ _ _)
                  (VInt 8) _);
      vm_compute; reflexivity.
Defined.

(** X16.  The defaults declared for [--months], [--days] and [--hours] are
    the full lists "01".."12", "01".."31" and "00:00".."23:00", of 12, 31
    and 24 tokens: each is what the field's own normalizer returns on the
    decimal renderings of 1..12, 1..31 and 0..23, and every default hour
    has the form "HH:00". *)
Theorem declared_defaults :
  ∃ lm ld lh,
    default arg_months = Some (strs lm) ∧
    default arg_days = Some (strs ld) ∧
    default arg_hours = Some (strs lh) ∧
    run (mapM zpad_months (Py.str <$> Py.range 1 13)) = (Ret lm, world0) ∧
    run (mapM zpad_days (Py.str <$> Py.range 1 32)) = (Ret ld, world0) ∧
    run (mapM format_hours (Py.str <$> Py.range 0 24)) = (Ret lh, world0) ∧
    (length lm = 12 ∧ length ld = 31 ∧ length lh = 24)%nat ∧
    forallb is_hour_token lh = true.
Proof.
  exists ((fun m => Py.zfill 2 (Py.str m)) <$> Py.range 1 13),
         ((fun d => Py.zfill 2 (Py.str d)) <$> Py.range 1 32),
         ((fun h => Py.zfill 2 (Py.str h) +:+ ":00") <$> Py.range 0 24).
  repeat split; vm_compute; reflexivity.
Qed.
